(** * Automatic reference counting runtime of trill (Sources/Runtime/arc.cpp)

    A shallow embedding of [RefCountBox], [RefCounted] and the four exported
    entry points, followed by the properties the design document states about
    them.  Every C++ statement of the file is one monadic step below; the
    state is the part of the process the file touches: the words written into
    [trill_alloc]ed storage, the [RefCountBox] objects of the free store, and
    what the process has emitted (diagnostic lines and deinitializer calls). *)

From Stdlib Require Import ZArith String Ascii List Lia.
From stdpp Require Import base gmap strings list.

Local Open Scope Z_scope.

(** ** Target constants (LP64) *)

(** [sizeof(RefCountBox * )], [sizeof(RefCountBox ** )] and [sizeof(boxPtr)]. *)
Definition sizeof_ptr : Z := 8.

(** [uintptr_t] and [size_t] arithmetic wraps at this modulus. *)
Definition ptr_modulus : Z := 2 ^ 64.

(** [std::numeric_limits<uint32_t>::max()]. *)
Definition UINT32_MAX : Z := 4294967295.

(** [sizeof(RefCountBox)]: a 4-byte count, padding, a function pointer and a
    [std::mutex]. Only used by the model of [new] to advance the break. *)
Definition sizeof_RefCountBox : Z := 56.

Definition wrap_ptr (a : Z) : Z := a mod ptr_modulus.
Definition wrap_u32 (n : Z) : Z := n mod (UINT32_MAX + 1).

(** ** Data *)

Module RefCountBox.
(** [struct RefCountBox]. The function pointer is its address, [0] being
    [nullptr]; the mutex is [true] while some [lock()] is outstanding. *)
Record t : Type := mk {
  retainCount : Z;
  deinit : Z;
  mutex : bool
}.

Definition with_retainCount (c : Z) (b : t) : t := mk c (deinit b) (mutex b).
Definition with_mutex (m : bool) (b : t) : t := mk (retainCount b) (deinit b) m.
End RefCountBox.

(** What the process emits. [EvLog x value count] is one [DEBUG_ARC_LOG(x)]
    line on [std::cout] (the macro is unconditionally enabled by
    [#define DEBUG_ARC]); the wall-clock prefix of the line is not part of the
    model. [EvDeinit f v] is the indirect call [f(v)] of a deinitializer. The
    callee is foreign code: the call is recorded, and the callee is taken to
    leave alone the header and the slot of the object being torn down, which
    the design forbids it to touch. *)
Inductive Event : Type :=
| EvLog (x : string) (value : Z) (count : Z)
| EvDeinit (fn : Z) (arg : Z).

(** The part of the process state that arc.cpp reads and writes. *)
Record World : Type := mkWorld {
  mem : gmap Z Z;                          (* initialised pointer-sized words, by address *)
  regions : list (Z * Z);                  (* [(base, size)] handed out by [trill_alloc] *)
  boxes : gmap Z RefCountBox.t;            (* live [RefCountBox] objects, by address *)
  brk : Z;                                 (* next address either allocator hands out *)
  trace : list Event                       (* emitted so far, oldest first *)
}.

Definition set_mem (m : gmap Z Z) (w : World) : World :=
  mkWorld m (regions w) (boxes w) (brk w) (trace w).
Definition set_regions (r : list (Z * Z)) (w : World) : World :=
  mkWorld (mem w) r (boxes w) (brk w) (trace w).
Definition set_boxes (b : gmap Z RefCountBox.t) (w : World) : World :=
  mkWorld (mem w) (regions w) b (brk w) (trace w).
Definition set_brk (k : Z) (w : World) : World :=
  mkWorld (mem w) (regions w) (boxes w) k (trace w).
Definition set_trace (t : list Event) (w : World) : World :=
  mkWorld (mem w) (regions w) (boxes w) (brk w) t.

(** Executions the C++ standard gives no meaning to, or that end inside a
    collaborator. *)
Inductive Fault : Type :=
| OutOfBounds        (* access outside every [trill_alloc]ed region *)
| Uninitialised      (* read of a word nothing has written *)
| BadBox             (* [box()->...] or [delete] through null or a dangling pointer *)
| Relock             (* [lock()] of a mutex the caller already holds *)
| UnlockUnheld       (* [unlock()] of a mutex nobody holds *)
| Exhausted.         (* an allocator has no storage left *)

Inductive Outcome (A : Type) : Type :=
| Returns (a : A) (w : World)        (* ran to completion *)
| Fatal (msg : string) (w : World)   (* [trill_fatalError(msg)] ended the process in [w] *)
| Stuck (f : Fault).
Arguments Returns {A} a w.
Arguments Fatal {A} msg w.
Arguments Stuck {A} f.

(** ** The monad of runtime code *)

Definition Run (A : Type) : Type := World -> Outcome A.

#[global] Instance Run_ret : MRet Run := fun A a w => Returns a w.
#[global] Instance Run_bind : MBind Run := fun A B k m w =>
  match m w with
  | Returns a w' => k a w'
  | Fatal msg w' => Fatal msg w'
  | Stuck f => Stuck f
  end.

Definition stuck {A : Type} (f : Fault) : Run A := fun _ => Stuck f.
Definition emit (e : Event) : Run unit :=
  fun w => Returns tt (set_trace (trace w ++ [e]) w).

(** ** Collaborators declared in trill.h *)

(** Modelled from the spec: [trill_fatalError] is the fatal-error reporter,
    [reportFatal(message)], which never returns and terminates the process. *)
Definition trill_fatalError {A : Type} (msg : string) : Run A :=
  fun w => Fatal msg w.

(** Modelled from the spec: [trill_alloc] is the raw allocator,
    [alloc(sizeInBytes) -> address], returning a valid and otherwise
    uninitialised region or failing by its own contract. Here it bumps the
    break and fails when the address space is used up. *)
Definition trill_alloc (n : Z) : Run Z := fun w =>
  if brk w + n <=? ptr_modulus
  then Returns (brk w) (set_brk (brk w + n) (set_regions ((brk w, n) :: regions w) w))
  else Stuck Exhausted.

(** ** Typed access to storage *)

(** A pointer-sized access at [a] is in bounds when one region contains it. *)
Definition in_region (a : Z) (r : Z * Z) : bool :=
  (fst r <=? a) && (a + sizeof_ptr <=? fst r + snd r).
Definition in_bounds (a : Z) (rs : list (Z * Z)) : bool := existsb (in_region a) rs.

(** [*a] as an rvalue of pointer type. *)
Definition load (a : Z) : Run Z := fun w =>
  if in_bounds a (regions w)
  then match mem w !! a with
       | Some v => Returns v w
       | None => Stuck Uninitialised
       end
  else Stuck OutOfBounds.

(** [*a = v]. *)
Definition store (a v : Z) : Run unit := fun w =>
  if in_bounds a (regions w)
  then Returns tt (set_mem (<[a := v]> (mem w)) w)
  else Stuck OutOfBounds.

(** [new RefCountBox(retainCount, deinit)]: the constructor leaves the mutex
    unlocked. *)
Definition new_RefCountBox (retainCount deinit : Z) : Run Z := fun w =>
  if brk w + sizeof_RefCountBox <=? ptr_modulus
  then Returns (brk w)
         (set_brk (brk w + sizeof_RefCountBox)
            (set_boxes (<[brk w := RefCountBox.mk retainCount deinit false]> (boxes w)) w))
  else Stuck Exhausted.

(** [b->...]: every member access goes through this. *)
Definition deref (b : Z) : Run RefCountBox.t := fun w =>
  match boxes w !! b with
  | Some bx => Returns bx w
  | None => Stuck BadBox
  end.

(** Write a member of [*b] back. *)
Definition assign (b : Z) (bx : RefCountBox.t) : Run unit := fun w =>
  match boxes w !! b with
  | Some _ => Returns tt (set_boxes (<[b := bx]> (boxes w)) w)
  | None => Stuck BadBox
  end.

(** [b->mutex.lock()], as seen by the one thread of the model. *)
Definition mutex_lock (b : Z) : Run unit :=
  bx ← deref b;
  if RefCountBox.mutex bx then stuck Relock
  else assign b (RefCountBox.with_mutex true bx).

(** [b->mutex.unlock()]. *)
Definition mutex_unlock (b : Z) : Run unit :=
  bx ← deref b;
  if RefCountBox.mutex bx then assign b (RefCountBox.with_mutex false bx)
  else stuck UnlockUnheld.

(** [delete b]: a no-op on null, otherwise the object must exist. *)
Definition delete_box (b : Z) : Run unit := fun w =>
  if b =? 0 then Returns tt w
  else match boxes w !! b with
       | Some _ => Returns tt (set_boxes (delete b (boxes w)) w)
       | None => Stuck BadBox
       end.

(** ** Printing a pointer: [ostream << void*]

    The standard leaves the format to the implementation; this is the usual
    [0x] followed by lower-case hexadecimal digits. *)

Definition hex_digit (d : Z) : ascii :=
  match d with
  | 0 => "0" | 1 => "1" | 2 => "2" | 3 => "3" | 4 => "4" | 5 => "5" | 6 => "6"
  | 7 => "7" | 8 => "8" | 9 => "9" | 10 => "a" | 11 => "b" | 12 => "c"
  | 13 => "d" | 14 => "e" | _ => "f"
  end%char.

Fixpoint hex_digits (fuel : nat) (v : Z) (acc : string) : string :=
  match fuel with
  | O => acc
  | S k =>
      let acc' := String (hex_digit (v mod 16)) acc in
      if v / 16 =? 0 then acc' else hex_digits k (v / 16) acc'
  end.

(** Sixteen digits are enough for a 64-bit address. *)
Definition show_ptr (p : Z) : string := ("0x" +:+ hex_digits 16 p "")%string.

(** ** [struct RefCounted] *)

Module RefCounted.
Record t : Type := mk {
  boxPtr : Z;     (* RefCountBox **boxPtr *)
  value : Z       (* void *value *)
}.

(** [RefCountBox *box() { return *boxPtr; }] *)
Definition box (this : t) : Run Z := load (boxPtr this).

(** [DEBUG_ARC_LOG(x)]: reads [box()->retainCount] and prints a line. *)
Definition DEBUG_ARC_LOG (this : t) (x : string) : Run unit :=
  b ← box this;
  bx ← deref b;
  emit (EvLog x (value this) (RefCountBox.retainCount bx)).

(** [RefCounted(size_t size, trill_deinitializer_t deinit)] *)
Definition create (size deinit : Z) : Run t :=
  boxFullPtr ← trill_alloc (wrap_ptr (sizeof_ptr + size));
  let boxPtr := boxFullPtr in
  b ← new_RefCountBox 0 deinit;
  store boxPtr b;;
  let value := wrap_ptr (boxFullPtr + sizeof_ptr) in
  let this := mk boxPtr value in
  DEBUG_ARC_LOG this "creating box";;
  mret this.

(** [RefCounted(void *boxedValue)] *)
Definition from (boxedValue : Z) : t :=
  let value := boxedValue in
  mk (wrap_ptr (value - sizeof_ptr)) value.

(** The message [checkForUseAfterDealloc] builds in its [stringstream]. *)
Definition used_after_deallocation (value : Z) : string :=
  ("object (" +:+ show_ptr value +:+ ") used after deallocation")%string.

(** [void checkForUseAfterDealloc()] *)
Definition checkForUseAfterDealloc (this : t) : Run unit :=
  b ← box this;
  if b =? 0 then trill_fatalError (used_after_deallocation (value this))
  else mret tt.

(** [bool isUniquelyReferenced()]. The [lock_guard] locks the mutex of the
    header it was built on and unlocks it after the result is computed. *)
Definition isUniquelyReferenced (this : t) : Run bool :=
  checkForUseAfterDealloc this;;
  guard ← box this;
  mutex_lock guard;;
  b ← box this;
  bx ← deref b;
  let result := RefCountBox.retainCount bx =? 1 in
  mutex_unlock guard;;
  mret result.

(** [uint32_t retainCount()] *)
Definition retainCount (this : t) : Run Z :=
  checkForUseAfterDealloc this;;
  guard ← box this;
  mutex_lock guard;;
  DEBUG_ARC_LOG this "getting retain count";;
  b ← box this;
  bx ← deref b;
  let result := RefCountBox.retainCount bx in
  mutex_unlock guard;;
  mret result.

(** [void retain()]. The first diagnostic line, whose text is the payload
    address, is printed before the lock is taken. An overflowing count ends
    the process with the guard's lock still held. *)
Definition retain (this : t) : Run unit :=
  checkForUseAfterDealloc this;;
  DEBUG_ARC_LOG this (show_ptr (value this));;
  guard ← box this;
  mutex_lock guard;;
  b ← box this;
  bx ← deref b;
  (if RefCountBox.retainCount bx =? UINT32_MAX
   then trill_fatalError "retain count overflow"
   else mret tt);;
  b ← box this;
  bx ← deref b;
  assign b (RefCountBox.with_retainCount (wrap_u32 (RefCountBox.retainCount bx + 1)) bx);;
  DEBUG_ARC_LOG this "retaining object";;
  mutex_unlock guard.

(** [void dealloc()], private, to be entered with the mutex held. *)
Definition dealloc (this : t) : Run unit :=
  checkForUseAfterDealloc this;;
  b ← box this;
  bx ← deref b;
  (if 0 <? RefCountBox.retainCount bx
   then trill_fatalError "object deallocated with retain count > 0"
   else mret tt);;
  DEBUG_ARC_LOG this "deallocating";;
  b ← box this;
  bx ← deref b;
  (if RefCountBox.deinit bx =? 0 then mret tt
   else
     b ← box this;
     bx ← deref b;
     emit (EvDeinit (RefCountBox.deinit bx) (value this)));;
  b ← box this;
  mutex_unlock b;;
  b ← box this;
  delete_box b;;
  store (boxPtr this) 0.

(** [void release()]. The mutex is locked by hand; [dealloc] unlocks it on
    the path that tears the object down. *)
Definition release (this : t) : Run unit :=
  checkForUseAfterDealloc this;;
  b ← box this;
  mutex_lock b;;
  b ← box this;
  bx ← deref b;
  (if RefCountBox.retainCount bx =? 0
   then trill_fatalError "attempting to release object with retain count 0"
   else mret tt);;
  b ← box this;
  bx ← deref b;
  assign b (RefCountBox.with_retainCount (wrap_u32 (RefCountBox.retainCount bx - 1)) bx);;
  DEBUG_ARC_LOG this "releasing object";;
  b ← box this;
  bx ← deref b;
  if RefCountBox.retainCount bx =? 0
  then dealloc this
  else
    b ← box this;
    mutex_unlock b.
End RefCounted.

(** ** Exported entry points *)

(** [void *trill_allocateIndirectType(size_t, trill_deinitializer_t)] *)
Definition trill_allocateIndirectType (size deinit : Z) : Run Z :=
  this ← RefCounted.create size deinit;
  mret (RefCounted.value this).

(** [void trill_retain(void *instance)] *)
Definition trill_retain (instance : Z) : Run unit :=
  let refCounted := RefCounted.from instance in
  RefCounted.retain refCounted.

(** [void trill_release(void *instance)] *)
Definition trill_release (instance : Z) : Run unit :=
  let refCounted := RefCounted.from instance in
  RefCounted.release refCounted.

(** [uint8_t trill_isUniquelyReferenced(void *instance)] *)
Definition trill_isUniquelyReferenced (instance : Z) : Run Z :=
  let refCounted := RefCounted.from instance in
  r ← RefCounted.isUniquelyReferenced refCounted;
  mret (if (r : bool) then 1 else 0).

(** ** Vocabulary of the statements *)

(** The two world updates every operation is made of. *)
Definition upd (b : Z) (bx : RefCountBox.t) (w : World) : World :=
  set_boxes (<[b := bx]> (boxes w)) w.
Definition say (e : Event) (w : World) : World :=
  set_trace (trace w ++ [e]) w.

(** The back-link slot of [this] is readable and holds [b]. *)
Definition slot_is (this : RefCounted.t) (b : Z) (w : World) : Prop :=
  in_bounds (RefCounted.boxPtr this) (regions w) = true /\
  mem w !! RefCounted.boxPtr this = Some b.

(** The free store holds [bx] at address [b]. *)
Definition box_is (b : Z) (bx : RefCountBox.t) (w : World) : Prop :=
  boxes w !! b = Some bx.

(** Payload [p] names a live object: its slot holds the non-null address [b]
    of the header [bx], nobody is inside one of the operations (the mutex is
    free), and the count is a [uint32_t]. *)
Definition live (p b : Z) (bx : RefCountBox.t) (w : World) : Prop :=
  slot_is (RefCounted.from p) b w /\
  b <> 0 /\
  box_is b bx w /\
  RefCountBox.mutex bx = false /\
  0 <= RefCountBox.retainCount bx <= UINT32_MAX.

(** Payload [p] names a torn-down object: its slot is readable and null. *)
Definition dead (p : Z) (w : World) : Prop := slot_is (RefCounted.from p) 0 w.

(** The world after [delete b] and [*boxPtr = nullptr]. *)
Definition torn_down (this : RefCounted.t) (b : Z) (w : World) : World :=
  set_mem (<[RefCounted.boxPtr this := 0]> (mem w)) (set_boxes (delete b (boxes w)) w).

(** The world after [if (deinit != nullptr) deinit(value)]. *)
Definition deinit_called (fn value : Z) (w : World) : World :=
  if fn =? 0 then w else say (EvDeinit fn value) w.

(** The world [RefCounted(size, deinit)] leaves behind: a region of
    [wrap_ptr (sizeof_ptr + size)] bytes at the old break, a fresh header right
    after it, the header's address in the first word of the region, and one
    diagnostic line. *)
Definition created (size deinit : Z) (w : World) : World :=
  let n := wrap_ptr (sizeof_ptr + size) in
  let b := brk w + n in
  mkWorld (<[brk w := b]> (mem w))
          ((brk w, n) :: regions w)
          (<[b := RefCountBox.mk 0 deinit false]> (boxes w))
          (b + sizeof_RefCountBox)
          (trace w ++ [EvLog "creating box" (wrap_ptr (brk w + sizeof_ptr)) 0]).

(** The allocators never hand out the null page. *)
Definition sane (w : World) : Prop := 0 < brk w.

(** The deinitializer calls the process has made, oldest first. *)
Definition deinit_calls (w : World) : list (Z * Z) :=
  omap (fun e => match e with EvDeinit f v => Some (f, v) | EvLog _ _ _ => None end)
       (trace w).

(** [times n op]: the caller performs [op] [n] times in a row. *)
Definition times (n : N) (op : Run unit) : Run unit :=
  N.iter n (fun rest => op ;; rest) (mret tt).

(** One call of compiler-generated code into the runtime (the four exported
    functions and the retain-count query), and a straight-line client made of
    such calls. *)
Inductive Call : Type :=
| Allocate (size deinit : Z)
| Retain (instance : Z)
| Release (instance : Z)
| IsUniquelyReferenced (instance : Z)
| RetainCount (instance : Z).

Definition perform (c : Call) : Run unit :=
  match c with
  | Allocate size deinit => trill_allocateIndirectType size deinit ;; mret tt
  | Retain p => trill_retain p
  | Release p => trill_release p
  | IsUniquelyReferenced p => trill_isUniquelyReferenced p ;; mret tt
  | RetainCount p => RefCounted.retainCount (RefCounted.from p) ;; mret tt
  end.

Fixpoint perform_all (cs : list Call) : Run unit :=
  match cs with
  | [] => mret tt
  | c :: rest => perform c ;; perform_all rest
  end.

Definition teardown_msg : string := "object deallocated with retain count > 0".

(** The execution ended in the defensive check of [dealloc]. *)
Definition teardown_violation {A : Type} (o : Outcome A) : bool :=
  match o with
  | Fatal msg _ => String.eqb msg teardown_msg
  | _ => false
  end.

(** [m] never ends in the defensive check of [dealloc], whatever world it
    starts in. *)
Definition harmless {A : Type} (m : Run A) : Prop :=
  forall w, teardown_violation (m w) = false.

(** The world the examples start from: nothing allocated, break at 4096. *)
Definition world0 : World := mkWorld ∅ [] ∅ 4096 [].

(** A world with one object of 8 payload bytes at payload address 4104, its
    header at 4112 holding count [c] and deinitializer [d]. *)
Definition example_world (c d : Z) : World :=
  mkWorld {[4096 := 4112]} [(4096, 16)] {[4112 := RefCountBox.mk c d false]} 4168 [].

(** ** Vocabulary of the further properties *)

(** The free store between two calls: no lock is held and every count is a
    [uint32_t]. *)
Definition heap_inv (w : World) : Prop :=
  forall b bx, boxes w !! b = Some bx ->
    RefCountBox.mutex bx = false /\ 0 <= RefCountBox.retainCount bx <= UINT32_MAX.

(** Everything [trill_alloc] has handed out lies below the break. *)
Definition regions_below (w : World) : Prop :=
  Forall (fun r => fst r + snd r <= brk w) (regions w).


(** The world a run ended in, when it has a meaning. *)
Definition final {A : Type} (o : Outcome A) : option World :=
  match o with
  | Returns _ w' => Some w'
  | Fatal _ w' => Some w'
  | Stuck _ => None
  end.

(** [keeps R m]: wherever [m] starts, the world it ends in (by returning or
    by a fatal error) is [R]-related to the one it started in. *)
Definition keeps {A : Type} (R : World -> World -> Prop) (m : Run A) : Prop :=
  forall w,
    match m w with
    | Returns _ w' => R w w'
    | Fatal _ w' => R w w'
    | Stuck _ => True
    end.

(** [w'] differs from [w] at most in counts, mutexes and diagnostic lines:
    same memory words, same regions, same break, the same headers with the
    same deinitializers, and no further deinitializer call. *)
Definition untouched (w w' : World) : Prop :=
  mem w' = mem w /\ regions w' = regions w /\ brk w' = brk w /\
  (forall b, RefCountBox.deinit <$> boxes w' !! b = RefCountBox.deinit <$> boxes w !! b) /\
  deinit_calls w' = deinit_calls w.

(** [w'] has everything [w] had handed out and emitted, and maybe more. *)
Definition grows (w w' : World) : Prop :=
  (exists rs, regions w' = rs ++ regions w) /\
  brk w <= brk w' /\
  (exists es, trace w' = trace w ++ es).

(** The operations a holder of one payload address can perform on it. *)
Inductive ObjOp : Type := DoRetain | DoRelease | DoIsUniquelyReferenced | DoRetainCount.

Definition obj_call (p : Z) (o : ObjOp) : Call :=
  match o with
  | DoRetain => Retain p
  | DoRelease => Release p
  | DoIsUniquelyReferenced => IsUniquelyReferenced p
  | DoRetainCount => RetainCount p
  end.

(** A bounded counter that stays strictly positive: what a live object's
    count does under an operation, [None] when the operation would overflow
    it, underflow it or bring it to zero. *)
Definition counter_step (c : Z) (o : ObjOp) : option Z :=
  match o with
  | DoRetain => if c =? UINT32_MAX then None else Some (c + 1)
  | DoRelease => if c <=? 1 then None else Some (c - 1)
  | DoIsUniquelyReferenced | DoRetainCount => Some c
  end.

Fixpoint counter_run (c : Z) (ops : list ObjOp) : option Z :=
  match ops with
  | [] => Some c
  | o :: rest =>
      match counter_step c o with
      | Some c' => counter_run c' rest
      | None => None
      end
  end.

(** A world with two objects: the one of [example_world] with count [c] and
    deinitializer [d], and a second one at payload address 4176, header at
    4184, count 5. *)
Definition two_objects (c d : Z) : World :=
  mkWorld {[4096 := 4112; 4168 := 4184]} [(4168, 16); (4096, 16)]
          {[4112 := RefCountBox.mk c d false; 4184 := RefCountBox.mk 5 0 false]}
          4240 [].

(** * Properties *)

(** ** The monad *)

Lemma bind_run {A B : Type} (m : Run A) (k : A -> Run B) (w : World) :
  (m ≫= k) w =
  match m w with
  | Returns a w' => k a w'
  | Fatal msg w' => Fatal msg w'
  | Stuck f => Stuck f
  end.
Proof. reflexivity. Qed.

Lemma bind_returns {A B : Type} (m : Run A) (k : A -> Run B) w a w' :
  m w = Returns a w' -> (m ≫= k) w = k a w'.
Proof. intros H. rewrite bind_run, H. reflexivity. Qed.

Lemma bind_fatal {A B : Type} (m : Run A) (k : A -> Run B) w msg w' :
  m w = Fatal msg w' -> (m ≫= k) w = Fatal msg w'.
Proof. intros H. rewrite bind_run, H. reflexivity. Qed.

Lemma bind_assoc {A B C : Type} (m : Run A) (k : A -> Run B) (h : B -> Run C) w :
  ((m ≫= k) ≫= h) w = (m ≫= (fun a => k a ≫= h)) w.
Proof. rewrite !bind_run. destruct (m w); reflexivity. Qed.

(** ** Worlds *)

Lemma slot_is_upd this b b' bx w : slot_is this b w -> slot_is this b (upd b' bx w).
Proof. intros H. exact H. Qed.

Lemma slot_is_say this b e w : slot_is this b w -> slot_is this b (say e w).
Proof. intros H. exact H. Qed.

Lemma box_is_upd b bx w : box_is b bx (upd b bx w).
Proof. unfold box_is, upd. simpl. apply lookup_insert_eq. Qed.

Lemma box_is_say b bx e w : box_is b bx w -> box_is b bx (say e w).
Proof. intros H. exact H. Qed.

Lemma upd_upd b bx bx' w : upd b bx (upd b bx' w) = upd b bx w.
Proof. unfold upd, set_boxes. simpl. rewrite insert_insert_eq. reflexivity. Qed.

Lemma upd_say b bx e w : upd b bx (say e w) = say e (upd b bx w).
Proof. reflexivity. Qed.

Lemma upd_id b bx w : box_is b bx w -> upd b bx w = w.
Proof.
  unfold box_is, upd, set_boxes. intros H.
  rewrite (insert_id _ _ _ H). destruct w; reflexivity.
Qed.

Lemma deinit_calls_say_log x v c w :
  deinit_calls (say (EvLog x v c) w) = deinit_calls w.
Proof.
  unfold deinit_calls, say. simpl. rewrite omap_app. simpl. apply app_nil_r.
Qed.

Lemma deinit_calls_say_deinit f v w :
  deinit_calls (say (EvDeinit f v) w) = deinit_calls w ++ [(f, v)].
Proof. unfold deinit_calls, say. simpl. rewrite omap_app. reflexivity. Qed.

Lemma deinit_calls_upd b bx w : deinit_calls (upd b bx w) = deinit_calls w.
Proof. reflexivity. Qed.

(** ** Primitive steps *)

Lemma box_ok this b w : slot_is this b w -> RefCounted.box this w = Returns b w.
Proof.
  intros [Hin Hm]. unfold RefCounted.box, load. rewrite Hin, Hm. reflexivity.
Qed.

Lemma deref_ok b bx w : box_is b bx w -> deref b w = Returns bx w.
Proof. unfold box_is, deref. intros ->. reflexivity. Qed.

Lemma assign_ok b bx0 bx w : box_is b bx0 w -> assign b bx w = Returns tt (upd b bx w).
Proof. unfold box_is, assign. intros ->. reflexivity. Qed.

Lemma mutex_lock_ok b bx w :
  box_is b bx w -> RefCountBox.mutex bx = false ->
  mutex_lock b w = Returns tt (upd b (RefCountBox.with_mutex true bx) w).
Proof.
  intros Hb Hm. unfold mutex_lock.
  rewrite (bind_returns _ _ _ _ _ (deref_ok _ _ _ Hb)), Hm.
  exact (assign_ok _ _ _ _ Hb).
Qed.

Lemma mutex_unlock_ok b bx w :
  box_is b bx w -> RefCountBox.mutex bx = true ->
  mutex_unlock b w = Returns tt (upd b (RefCountBox.with_mutex false bx) w).
Proof.
  intros Hb Hm. unfold mutex_unlock.
  rewrite (bind_returns _ _ _ _ _ (deref_ok _ _ _ Hb)), Hm.
  exact (assign_ok _ _ _ _ Hb).
Qed.

Lemma delete_box_ok b bx w :
  b <> 0 -> box_is b bx w ->
  delete_box b w = Returns tt (set_boxes (delete b (boxes w)) w).
Proof.
  unfold box_is, delete_box. intros Hn ->.
  destruct (Z.eqb_spec b 0) as [E|_]; [contradiction | reflexivity].
Qed.

Lemma store_ok a v w :
  in_bounds a (regions w) = true ->
  store a v w = Returns tt (set_mem (<[a := v]> (mem w)) w).
Proof. unfold store. intros ->. reflexivity. Qed.

Lemma check_live this b w :
  slot_is this b w -> b <> 0 ->
  RefCounted.checkForUseAfterDealloc this w = Returns tt w.
Proof.
  intros Hs Hn. unfold RefCounted.checkForUseAfterDealloc.
  rewrite (bind_returns _ _ _ _ _ (box_ok _ _ _ Hs)).
  destruct (Z.eqb_spec b 0) as [E|_]; [contradiction | reflexivity].
Qed.

Lemma check_dead this w :
  slot_is this 0 w ->
  RefCounted.checkForUseAfterDealloc this w =
  Fatal (RefCounted.used_after_deallocation (RefCounted.value this)) w.
Proof.
  intros Hs. unfold RefCounted.checkForUseAfterDealloc.
  rewrite (bind_returns _ _ _ _ _ (box_ok _ _ _ Hs)). reflexivity.
Qed.

Lemma log_ok this x b bx w :
  slot_is this b w -> box_is b bx w ->
  RefCounted.DEBUG_ARC_LOG this x w =
  Returns tt (say (EvLog x (RefCounted.value this) (RefCountBox.retainCount bx)) w).
Proof.
  intros Hs Hb. unfold RefCounted.DEBUG_ARC_LOG.
  rewrite (bind_returns _ _ _ _ _ (box_ok _ _ _ Hs)).
  rewrite (bind_returns _ _ _ _ _ (deref_ok _ _ _ Hb)).
  reflexivity.
Qed.

Create HintDb arc.
#[local] Hint Resolve slot_is_upd slot_is_say box_is_upd box_is_say : arc.

(** Run the first statement of a sequence with the lemma that describes it. *)
Ltac by_step lem := erewrite bind_returns by (eapply lem; eauto with arc).

(** Project a field out of an updated world. *)
Ltac world_simpl :=
  cbn [mem regions boxes brk trace
       set_mem set_regions set_boxes set_brk set_trace upd say].

(** Bring the world a run ended in to the form [say .. (upd b .. w)]. *)
Ltac tidy_world :=
  simpl RefCountBox.retainCount; simpl RefCountBox.deinit;
  simpl RefCountBox.mutex; simpl RefCounted.value;
  rewrite ?upd_say, ?upd_upd.

Lemma wrap_u32_id n : 0 <= n <= UINT32_MAX -> wrap_u32 n = n.
Proof. intros H. unfold wrap_u32. apply Z.mod_small. unfold UINT32_MAX in *. lia. Qed.

Lemma unlock_lock bx :
  RefCountBox.mutex bx = false ->
  RefCountBox.with_mutex false (RefCountBox.with_mutex true bx) = bx.
Proof. destruct bx; simpl; intros ->; reflexivity. Qed.

(** ** The operations on a live object *)

Lemma isUniquelyReferenced_ok p b bx w :
  live p b bx w ->
  RefCounted.isUniquelyReferenced (RefCounted.from p) w =
  Returns (RefCountBox.retainCount bx =? 1) w.
Proof.
  intros (Hs & Hn & Hb & Hm & Hc).
  unfold RefCounted.isUniquelyReferenced.
  by_step check_live.
  by_step box_ok.
  by_step mutex_lock_ok.
  by_step box_ok.
  by_step deref_ok.
  erewrite bind_returns by (eapply mutex_unlock_ok; eauto with arc).
  tidy_world. rewrite (unlock_lock _ Hm), (upd_id _ _ _ Hb). reflexivity.
Qed.

Lemma retainCount_ok p b bx w :
  live p b bx w ->
  RefCounted.retainCount (RefCounted.from p) w =
  Returns (RefCountBox.retainCount bx)
    (say (EvLog "getting retain count" p (RefCountBox.retainCount bx)) w).
Proof.
  intros (Hs & Hn & Hb & Hm & Hc).
  unfold RefCounted.retainCount.
  by_step check_live.
  by_step box_ok.
  by_step mutex_lock_ok.
  by_step log_ok.
  by_step box_ok.
  by_step deref_ok.
  erewrite bind_returns by (eapply mutex_unlock_ok; eauto with arc).
  tidy_world. rewrite (unlock_lock _ Hm), (upd_id _ _ _ Hb). reflexivity.
Qed.

Lemma retain_ok p b bx w :
  live p b bx w ->
  RefCountBox.retainCount bx <> UINT32_MAX ->
  trill_retain p w =
  Returns tt
    (say (EvLog "retaining object" p (RefCountBox.retainCount bx + 1))
       (say (EvLog (show_ptr p) p (RefCountBox.retainCount bx))
          (upd b (RefCountBox.with_retainCount (RefCountBox.retainCount bx + 1) bx) w))).
Proof.
  intros (Hs & Hn & Hb & Hm & Hc) Hmax.
  unfold trill_retain, RefCounted.retain.
  by_step check_live.
  by_step log_ok.
  by_step box_ok.
  by_step mutex_lock_ok.
  by_step box_ok.
  by_step deref_ok.
  simpl RefCountBox.retainCount.
  destruct (Z.eqb_spec (RefCountBox.retainCount bx) UINT32_MAX) as [E|_]; [contradiction|].
  rewrite bind_run. simpl.
  by_step box_ok.
  by_step deref_ok.
  by_step assign_ok.
  by_step log_ok.
  erewrite mutex_unlock_ok by (eauto with arc).
  tidy_world. rewrite wrap_u32_id by lia.
  destruct bx; simpl in *; subst. reflexivity.
Qed.

Lemma retain_overflow p b bx w :
  live p b bx w ->
  RefCountBox.retainCount bx = UINT32_MAX ->
  trill_retain p w =
  Fatal "retain count overflow"
    (say (EvLog (show_ptr p) p (RefCountBox.retainCount bx))
       (upd b (RefCountBox.with_mutex true bx) w)).
Proof.
  intros (Hs & Hn & Hb & Hm & Hc) Hmax.
  unfold trill_retain, RefCounted.retain.
  by_step check_live.
  by_step log_ok.
  by_step box_ok.
  by_step mutex_lock_ok.
  by_step box_ok.
  by_step deref_ok.
  simpl RefCountBox.retainCount. rewrite Hmax, Z.eqb_refl.
  tidy_world. reflexivity.
Qed.

Lemma dealloc_ok this b bx w :
  slot_is this b w -> b <> 0 -> box_is b bx w ->
  RefCountBox.retainCount bx = 0 -> RefCountBox.mutex bx = true ->
  RefCounted.dealloc this w =
  Returns tt
    (torn_down this b
       (deinit_called (RefCountBox.deinit bx) (RefCounted.value this)
          (say (EvLog "deallocating" (RefCounted.value this) 0) w))).
Proof.
  intros Hs Hn Hb Hc Hm.
  unfold RefCounted.dealloc.
  by_step check_live.
  by_step box_ok.
  by_step deref_ok.
  rewrite Hc. rewrite bind_run. simpl.
  by_step log_ok.
  by_step box_ok.
  by_step deref_ok.
  rewrite Hc. unfold deinit_called.
  destruct (Z.eqb_spec (RefCountBox.deinit bx) 0) as [Ed|Ed].
  - rewrite bind_run. simpl.
    by_step box_ok.
    by_step mutex_unlock_ok.
    by_step box_ok.
    erewrite bind_returns by (eapply delete_box_ok; eauto with arc).
    rewrite store_ok by (apply Hs).
    unfold torn_down, upd, say, set_mem, set_boxes, set_trace. simpl.
    rewrite delete_insert_eq. reflexivity.
  - erewrite (bind_returns (_ ≫= _)).
    2:{ by_step box_ok. by_step deref_ok. reflexivity. }
    by_step box_ok.
    by_step mutex_unlock_ok.
    by_step box_ok.
    erewrite bind_returns by (eapply delete_box_ok; eauto with arc).
    rewrite store_ok by (apply Hs).
    unfold torn_down, upd, say, set_mem, set_boxes, set_trace. simpl.
    rewrite delete_insert_eq. reflexivity.
Qed.

Lemma torn_down_upd this b bx w : torn_down this b (upd b bx w) = torn_down this b w.
Proof.
  unfold torn_down, upd, set_mem, set_boxes. simpl.
  rewrite delete_insert_eq. reflexivity.
Qed.

Lemma torn_down_say this b e w : torn_down this b (say e w) = say e (torn_down this b w).
Proof. reflexivity. Qed.

Lemma deinit_called_upd fn v b bx w :
  deinit_called fn v (upd b bx w) = upd b bx (deinit_called fn v w).
Proof. unfold deinit_called. destruct (fn =? 0); reflexivity. Qed.

Lemma release_underflow p b bx w :
  live p b bx w ->
  RefCountBox.retainCount bx = 0 ->
  trill_release p w =
  Fatal "attempting to release object with retain count 0"
    (upd b (RefCountBox.with_mutex true bx) w).
Proof.
  intros (Hs & Hn & Hb & Hm & Hc) H0.
  unfold trill_release, RefCounted.release.
  by_step check_live.
  by_step box_ok.
  by_step mutex_lock_ok.
  by_step box_ok.
  by_step deref_ok.
  simpl RefCountBox.retainCount. rewrite H0. reflexivity.
Qed.

(** Up to its last statement, [release] locks, decrements and logs; then it
    either tears the object down or unlocks. *)
Lemma release_decrements p b bx w :
  live p b bx w ->
  RefCountBox.retainCount bx <> 0 ->
  let c' := RefCountBox.retainCount bx - 1 in
  let w1 := say (EvLog "releasing object" p c')
              (upd b (RefCountBox.mk c' (RefCountBox.deinit bx) true) w) in
  trill_release p w =
  if c' =? 0 then RefCounted.dealloc (RefCounted.from p) w1
  else Returns tt (upd b (RefCountBox.with_retainCount c' bx) w1).
Proof.
  intros (Hs & Hn & Hb & Hm & Hc) H0 c' w1.
  unfold trill_release, RefCounted.release.
  by_step check_live.
  by_step box_ok.
  by_step mutex_lock_ok.
  by_step box_ok.
  by_step deref_ok.
  simpl RefCountBox.retainCount.
  destruct (Z.eqb_spec (RefCountBox.retainCount bx) 0) as [E|_]; [contradiction|].
  rewrite bind_run. simpl.
  by_step box_ok.
  by_step deref_ok.
  by_step assign_ok.
  by_step log_ok.
  by_step box_ok.
  by_step deref_ok.
  cbn [RefCountBox.retainCount RefCountBox.deinit RefCountBox.mutex
       RefCountBox.with_retainCount RefCountBox.with_mutex RefCounted.value
       RefCounted.from].
  rewrite wrap_u32_id by lia. rewrite upd_upd. fold c' w1.
  destruct (c' =? 0); [reflexivity|].
  subst w1.
  by_step box_ok.
  erewrite mutex_unlock_ok by (eauto with arc).
  destruct bx; simpl in *; subst. reflexivity.
Qed.

Lemma release_keep p b bx w :
  live p b bx w ->
  RefCountBox.retainCount bx <> 0 ->
  RefCountBox.retainCount bx <> 1 ->
  trill_release p w =
  Returns tt
    (say (EvLog "releasing object" p (RefCountBox.retainCount bx - 1))
       (upd b (RefCountBox.with_retainCount (RefCountBox.retainCount bx - 1) bx) w)).
Proof.
  intros Hl H0 H1. rewrite (release_decrements _ _ _ _ Hl H0).
  destruct (Z.eqb_spec (RefCountBox.retainCount bx - 1) 0) as [E|_]; [lia|].
  tidy_world. reflexivity.
Qed.

Lemma release_last p b bx w :
  live p b bx w ->
  RefCountBox.retainCount bx = 1 ->
  trill_release p w =
  Returns tt
    (torn_down (RefCounted.from p) b
       (deinit_called (RefCountBox.deinit bx) p
          (say (EvLog "deallocating" p 0)
             (say (EvLog "releasing object" p 0) w)))).
Proof.
  intros Hl H1. rewrite (release_decrements _ _ _ _ Hl) by lia.
  destruct Hl as (Hs & Hn & Hb & Hm & Hc).
  rewrite H1. simpl.
  erewrite dealloc_ok; eauto with arc.
  simpl RefCountBox.deinit. simpl RefCounted.value.
  rewrite <- !upd_say, deinit_called_upd, torn_down_upd. reflexivity.
Qed.

(** ** Allocation *)

Lemma created_inv size deinit w this w' :
  RefCounted.create size deinit w = Returns this w' ->
  this = RefCounted.mk (brk w) (wrap_ptr (brk w + sizeof_ptr)) /\
  w' = created size deinit w /\
  in_bounds (brk w) (regions w') = true /\
  brk w + wrap_ptr (sizeof_ptr + size) + sizeof_RefCountBox <= ptr_modulus.
Proof.
  unfold RefCounted.create. rewrite bind_run. unfold trill_alloc.
  destruct (brk w + wrap_ptr (sizeof_ptr + size) <=? ptr_modulus); [|discriminate].
  rewrite bind_run. unfold new_RefCountBox. world_simpl.
  destruct (Z.leb_spec (brk w + wrap_ptr (sizeof_ptr + size) + sizeof_RefCountBox)
              ptr_modulus) as [Hle|]; [|discriminate].
  rewrite bind_run. unfold store. world_simpl.
  destruct (in_bounds (brk w) _) eqn:Hin; [|discriminate].
  rewrite bind_run.
  erewrite log_ok.
  2:{ split; [exact Hin | apply lookup_insert_eq]. }
  2:{ unfold box_is. world_simpl. apply lookup_insert_eq. }
  intros H. injection H as <- <-. auto.
Qed.

Lemma wrap_ptr_roundtrip a :
  0 <= a < ptr_modulus -> wrap_ptr (wrap_ptr (a + sizeof_ptr) - sizeof_ptr) = a.
Proof.
  intros H. unfold wrap_ptr.
  rewrite Zminus_mod_idemp_l.
  replace (a + sizeof_ptr - sizeof_ptr) with a by lia.
  apply Z.mod_small, H.
Qed.

Lemma wrap_ptr_nonneg a : 0 <= wrap_ptr a.
Proof. unfold wrap_ptr, ptr_modulus. apply Z.mod_pos_bound. lia. Qed.

Lemma created_live size deinit w this w' :
  sane w ->
  RefCounted.create size deinit w = Returns this w' ->
  RefCounted.from (RefCounted.value this) = this /\
  live (RefCounted.value this) (brk w + wrap_ptr (sizeof_ptr + size))
       (RefCountBox.mk 0 deinit false) w'.
Proof.
  intros Hsane Hc. apply created_inv in Hc as (-> & -> & Hin & Hle).
  pose proof (wrap_ptr_nonneg (sizeof_ptr + size)) as Hn.
  unfold sane in Hsane. unfold sizeof_RefCountBox in Hle.
  assert (Hrt : RefCounted.from (wrap_ptr (brk w + sizeof_ptr)) =
                RefCounted.mk (brk w) (wrap_ptr (brk w + sizeof_ptr))).
  { unfold RefCounted.from. rewrite wrap_ptr_roundtrip by lia. reflexivity. }
  simpl RefCounted.value. split; [exact Hrt|].
  unfold live. rewrite Hrt. repeat split.
  - exact Hin.
  - simpl. apply lookup_insert_eq.
  - lia.
  - unfold box_is. simpl. apply lookup_insert_eq.
  - simpl. lia.
  - simpl. unfold UINT32_MAX. lia.
Qed.

(** ** Liveness is kept by the updates of retain and release *)

Lemma live_upd p b bx bx' w :
  live p b bx w ->
  RefCountBox.mutex bx' = false ->
  0 <= RefCountBox.retainCount bx' <= UINT32_MAX ->
  live p b bx' (upd b bx' w).
Proof.
  intros (Hs & Hn & Hb & Hm & Hc) Hm' Hc'.
  repeat split; auto with arc; apply Hs || apply Hc'.
Qed.

Lemma live_say p b bx e w : live p b bx w -> live p b bx (say e w).
Proof. intros H. exact H. Qed.

Lemma live_with_retainCount p b bx w c :
  live p b bx w ->
  RefCountBox.with_retainCount c bx = RefCountBox.mk c (RefCountBox.deinit bx) false.
Proof. intros (_ & _ & _ & Hm & _). unfold RefCountBox.with_retainCount. rewrite Hm. reflexivity. Qed.

(** ** Repetition *)

Lemma times_0 op w : times 0 op w = Returns tt w.
Proof. reflexivity. Qed.

Lemma times_succ n op : times (N.succ n) op = (op ;; times n op).
Proof. unfold times. rewrite N.iter_succ. reflexivity. Qed.

Lemma times_succ_r n op w : times (N.succ n) op w = (times n op ;; op) w.
Proof.
  revert w. induction n as [|n IH] using N.peano_ind; intros w.
  - rewrite times_succ, !bind_run, times_0. destruct (op w) as [[] w'| |]; reflexivity.
  - assert (R : (times (N.succ n) op ;; op) w =
                match op w with
                | Returns _ w' => (times n op ;; op) w'
                | Fatal msg w' => Fatal msg w'
                | Stuck f => Stuck f
                end).
    { rewrite times_succ, bind_assoc, (bind_run op). reflexivity. }
    rewrite R, times_succ, (bind_run op).
    destruct (op w) as [[] w'| |]; try reflexivity.
    apply IH.
Qed.

(** [n] retains in a row raise the count by [n], the deinitializer stays
    uncalled. *)
Lemma retain_times p b d n : forall c w,
  live p b (RefCountBox.mk c d false) w ->
  c + Z.of_N n <= UINT32_MAX ->
  exists w',
    times n (trill_retain p) w = Returns tt w' /\
    live p b (RefCountBox.mk (c + Z.of_N n) d false) w' /\
    deinit_calls w' = deinit_calls w.
Proof.
  induction n as [|n IH] using N.peano_ind; intros c w Hl Hle.
  - exists w. rewrite times_0, Z.add_0_r. auto.
  - rewrite N2Z.inj_succ in Hle.
    assert (Hc : 0 <= c <= UINT32_MAX) by apply Hl.
    rewrite times_succ.
    erewrite bind_returns by (apply (retain_ok _ _ _ _ Hl); simpl; lia).
    simpl RefCountBox.retainCount.
    match goal with |- context [times n _ ?w1] =>
      destruct (IH (c + 1) w1) as (w' & Hrun & Hl' & Hd) end.
    + apply live_say, live_say, live_upd with (1 := Hl); simpl; [reflexivity | lia].
    + lia.
    + exists w'. rewrite N2Z.inj_succ.
      replace (c + Z.succ (Z.of_N n)) with (c + 1 + Z.of_N n) by lia.
      repeat split; [exact Hrun | apply Hl' .. |].
      rewrite Hd, !deinit_calls_say_log. reflexivity.
Qed.

(** [n] releases in a row lower a count above [n] by [n], the deinitializer
    stays uncalled. *)
Lemma release_times p b d n : forall c w,
  live p b (RefCountBox.mk c d false) w ->
  Z.of_N n < c ->
  exists w',
    times n (trill_release p) w = Returns tt w' /\
    live p b (RefCountBox.mk (c - Z.of_N n) d false) w' /\
    deinit_calls w' = deinit_calls w.
Proof.
  induction n as [|n IH] using N.peano_ind; intros c w Hl Hlt.
  - exists w. rewrite times_0, Z.sub_0_r. auto.
  - rewrite N2Z.inj_succ in Hlt.
    assert (Hc : 0 <= c <= UINT32_MAX) by apply Hl.
    pose proof (N2Z.is_nonneg n) as Hn.
    rewrite times_succ.
    erewrite bind_returns by (apply (release_keep _ _ _ _ Hl); simpl; lia).
    simpl RefCountBox.retainCount.
    match goal with |- context [times n _ ?w1] =>
      destruct (IH (c - 1) w1) as (w' & Hrun & Hl' & Hd) end.
    + apply live_say, live_upd with (1 := Hl); simpl; [reflexivity | lia].
    + lia.
    + exists w'. rewrite N2Z.inj_succ.
      replace (c - Z.succ (Z.of_N n)) with (c - 1 - Z.of_N n) by lia.
      repeat split; [exact Hrun | apply Hl' .. |].
      rewrite Hd, deinit_calls_say_log. reflexivity.
Qed.

(** One retain more than the count can hold ends the process, whatever the
    caller meant to do next. *)
Lemma retain_exhausts {A : Type} p b d n c w (k : unit -> Run A) :
  live p b (RefCountBox.mk c d false) w ->
  c + Z.of_N n = UINT32_MAX ->
  exists wf,
    (times (N.succ n) (trill_retain p) ≫= k) w = Fatal "retain count overflow" wf /\
    deinit_calls wf = deinit_calls w.
Proof.
  intros Hl Hc.
  destruct (retain_times p b d n c w Hl ltac:(lia)) as (w1 & Hr & Hl1 & Hd1).
  eexists. rewrite bind_run, times_succ_r, (bind_returns _ _ _ _ _ Hr).
  rewrite (retain_overflow _ _ _ _ Hl1) by exact Hc.
  split; [reflexivity|].
  rewrite deinit_calls_say_log, deinit_calls_upd. exact Hd1.
Qed.

Lemma deinit_calls_torn_down this b w :
  deinit_calls (torn_down this b w) = deinit_calls w.
Proof. reflexivity. Qed.

Lemma dead_torn_down p b w :
  slot_is (RefCounted.from p) b w -> dead p (torn_down (RefCounted.from p) b w).
Proof.
  intros [Hin _]. split; [exact Hin|].
  unfold torn_down. world_simpl. apply lookup_insert_eq.
Qed.

(** ** Code that cannot reach the teardown check *)

Lemma harmless_bind {A B : Type} (m : Run A) (k : A -> Run B) :
  harmless m -> (forall a, harmless (k a)) -> harmless (m ≫= k).
Proof.
  intros Hm Hk w. rewrite bind_run. specialize (Hm w).
  destruct (m w); [apply Hk | exact Hm | reflexivity].
Qed.

Lemma harmless_ret {A : Type} (a : A) : harmless (mret a).
Proof. intros w. reflexivity. Qed.

Lemma harmless_stuck {A : Type} (f : Fault) : harmless (@stuck A f).
Proof. intros w. reflexivity. Qed.

Lemma harmless_emit e : harmless (emit e).
Proof. intros w. reflexivity. Qed.

Lemma harmless_load a : harmless (load a).
Proof.
  intros w. unfold load.
  destruct (in_bounds a (regions w)); [destruct (mem w !! a)|]; reflexivity.
Qed.

Lemma harmless_store a v : harmless (store a v).
Proof. intros w. unfold store. destruct (in_bounds a (regions w)); reflexivity. Qed.

Lemma harmless_deref b : harmless (deref b).
Proof. intros w. unfold deref. destruct (boxes w !! b); reflexivity. Qed.

Lemma harmless_assign b bx : harmless (assign b bx).
Proof. intros w. unfold assign. destruct (boxes w !! b); reflexivity. Qed.

Lemma harmless_delete_box b : harmless (delete_box b).
Proof.
  intros w. unfold delete_box.
  destruct (b =? 0); [|destruct (boxes w !! b)]; reflexivity.
Qed.

Lemma harmless_trill_alloc n : harmless (trill_alloc n).
Proof. intros w. unfold trill_alloc. destruct (_ <=? _); reflexivity. Qed.

Lemma harmless_new_RefCountBox c d : harmless (new_RefCountBox c d).
Proof. intros w. unfold new_RefCountBox. destruct (_ <=? _); reflexivity. Qed.

Lemma harmless_fatal {A : Type} msg :
  String.eqb msg teardown_msg = false -> harmless (@trill_fatalError A msg).
Proof. intros H w. exact H. Qed.

Lemma used_after_deallocation_other v :
  String.eqb (RefCounted.used_after_deallocation v) teardown_msg = false.
Proof. reflexivity. Qed.

Create HintDb harmless.
#[local] Hint Resolve harmless_ret harmless_stuck harmless_emit harmless_load
  harmless_store harmless_deref harmless_assign harmless_delete_box
  harmless_trill_alloc harmless_new_RefCountBox : harmless.

(** Split a sequence into its statements and discharge each of them. *)
Ltac harmless_steps :=
  repeat first
    [ solve [eauto with harmless]
    | match goal with
      | |- harmless (if ?c then _ else _) => destruct c
      | |- harmless (trill_fatalError _) => apply harmless_fatal; reflexivity
      end
    | apply harmless_bind; [|intros ?] ].

Lemma harmless_box this : harmless (RefCounted.box this).
Proof. apply harmless_load. Qed.

Lemma harmless_mutex_lock b : harmless (mutex_lock b).
Proof. unfold mutex_lock. harmless_steps. Qed.

Lemma harmless_mutex_unlock b : harmless (mutex_unlock b).
Proof. unfold mutex_unlock. harmless_steps. Qed.

Lemma harmless_log this x : harmless (RefCounted.DEBUG_ARC_LOG this x).
Proof. unfold RefCounted.DEBUG_ARC_LOG, RefCounted.box. harmless_steps. Qed.

Lemma harmless_check this : harmless (RefCounted.checkForUseAfterDealloc this).
Proof.
  unfold RefCounted.checkForUseAfterDealloc, RefCounted.box.
  apply harmless_bind; [apply harmless_load|]. intros b.
  destruct (b =? 0); [|apply harmless_ret].
  apply harmless_fatal, used_after_deallocation_other.
Qed.

#[local] Hint Resolve harmless_box harmless_mutex_lock harmless_mutex_unlock
  harmless_log harmless_check : harmless.

Lemma harmless_create size deinit : harmless (RefCounted.create size deinit).
Proof. unfold RefCounted.create. harmless_steps. Qed.

Lemma harmless_isUniquelyReferenced this : harmless (RefCounted.isUniquelyReferenced this).
Proof. unfold RefCounted.isUniquelyReferenced. harmless_steps. Qed.

Lemma harmless_retainCount this : harmless (RefCounted.retainCount this).
Proof. unfold RefCounted.retainCount. harmless_steps. Qed.

Lemma harmless_retain this : harmless (RefCounted.retain this).
Proof. unfold RefCounted.retain. harmless_steps. Qed.

Lemma harmless_at {A : Type} (m : Run A) w :
  harmless m -> teardown_violation (m w) = false.
Proof. intros H. apply H. Qed.

(** [dealloc] entered with a zero count passes its own check. *)
Lemma dealloc_zero_passes this b bx w :
  slot_is this b w -> box_is b bx w -> RefCountBox.retainCount bx = 0 ->
  teardown_violation (RefCounted.dealloc this w) = false.
Proof.
  intros Hs Hb H0. unfold RefCounted.dealloc.
  destruct (Z.eq_dec b 0) as [->|Hn].
  - erewrite bind_fatal by (apply check_dead, Hs).
    apply used_after_deallocation_other.
  - by_step check_live. by_step box_ok. by_step deref_ok.
    rewrite H0. change (0 <? 0) with false. cbv iota.
    apply harmless_at. harmless_steps.
Qed.

(** The last statement of [release] only tears down a count it has just read
    as zero. *)
Lemma harmless_release_tail this :
  harmless
    (b ← RefCounted.box this;
     bx ← deref b;
     if RefCountBox.retainCount bx =? 0
     then RefCounted.dealloc this
     else b ← RefCounted.box this; mutex_unlock b).
Proof.
  intros w. rewrite bind_run. unfold RefCounted.box at 1, load.
  destruct (in_bounds _ _) eqn:Hin; [|reflexivity].
  destruct (mem w !! _) as [b|] eqn:Hm; [|reflexivity].
  rewrite bind_run. unfold deref at 1.
  destruct (boxes w !! b) as [bx|] eqn:Hb; [|reflexivity].
  destruct (Z.eqb_spec (RefCountBox.retainCount bx) 0) as [H0|_].
  - apply (dealloc_zero_passes this b bx); [split| |]; assumption.
  - apply harmless_at. harmless_steps.
Qed.

Lemma harmless_release this : harmless (RefCounted.release this).
Proof.
  unfold RefCounted.release.
  do 10 (apply harmless_bind; [harmless_steps | intros ?]).
  apply harmless_release_tail.
Qed.

Lemma harmless_perform c : harmless (perform c).
Proof.
  destruct c; simpl.
  - apply harmless_bind; [|intros; apply harmless_ret].
    apply harmless_bind; [apply harmless_create | intros; apply harmless_ret].
  - apply harmless_retain.
  - apply harmless_release.
  - apply harmless_bind; [|intros; apply harmless_ret].
    apply harmless_bind; [apply harmless_isUniquelyReferenced | intros; apply harmless_ret].
  - apply harmless_bind; [apply harmless_retainCount | intros; apply harmless_ret].
Qed.

(** ** The example worlds *)

Lemma example_live c d :
  0 <= c <= UINT32_MAX ->
  live 4104 4112 (RefCountBox.mk c d false) (example_world c d).
Proof.
  intros Hc. unfold live, slot_is, box_is.
  repeat split; try reflexivity; try apply Hc. discriminate.
Qed.

Lemma world0_sane : sane world0.
Proof. reflexivity. Qed.

Lemma allocate_world0 d :
  trill_allocateIndirectType 8 d world0 = Returns 4104 (created 8 d world0).
Proof. reflexivity. Qed.

Lemma created_world0_live d :
  live 4104 4112 (RefCountBox.mk 0 d false) (created 8 d world0).
Proof.
  unfold live, slot_is, box_is.
  repeat split; try reflexivity; discriminate.
Qed.

Lemma allocate_inv size deinit w p w' :
  trill_allocateIndirectType size deinit w = Returns p w' ->
  exists this, RefCounted.create size deinit w = Returns this w' /\
               p = RefCounted.value this.
Proof.
  unfold trill_allocateIndirectType. rewrite bind_run.
  destruct (RefCounted.create size deinit w) as [this w1| |]; try discriminate.
  intros H. injection H as <- <-. eauto.
Qed.

(** * The claims *)

(** C1 (as amended). For every object allocated with a non-null deinitializer
    [D] and every [n] with [1 <= n <= UINT32_MAX]: every prefix of [n] retains
    returns without calling a deinitializer; [n] retains followed by fewer
    than [n] releases return without calling one; and [n] retains followed by
    [n] releases return having called exactly [D], exactly once, on the
    payload address, which is then marked deallocated. *)
Theorem retain_release_deinit_once size D w p w0 n :
  sane w -> D <> 0 -> 1 <= Z.of_N n <= UINT32_MAX ->
  trill_allocateIndirectType size D w = Returns p w0 ->
  (forall i, (i <= n)%N ->
     exists w', times i (trill_retain p) w0 = Returns tt w' /\
                deinit_calls w' = deinit_calls w0) /\
  (forall j, (j < n)%N ->
     exists w', (times n (trill_retain p) ;; times j (trill_release p)) w0 = Returns tt w' /\
                deinit_calls w' = deinit_calls w0) /\
  (exists w', (times n (trill_retain p) ;; times n (trill_release p)) w0 = Returns tt w' /\
              deinit_calls w' = deinit_calls w0 ++ [(D, p)] /\
              dead p w').
Proof.
  intros Hsane HD Hn Halloc.
  apply allocate_inv in Halloc as (this & Hcreate & ->).
  destruct (created_live _ _ _ _ _ Hsane Hcreate) as (_ & Hl).
  set (p := RefCounted.value this) in *.
  set (b := brk w + wrap_ptr (sizeof_ptr + size)) in *.
  destruct (retain_times p b D n 0 w0 Hl ltac:(lia)) as (w1 & Hr & Hl1 & Hd1).
  rewrite Z.add_0_l in Hl1.
  split; [|split].
  - intros i Hi.
    destruct (retain_times p b D i 0 w0 Hl ltac:(lia)) as (w' & Hr' & _ & Hd').
    eauto.
  - intros j Hj.
    destruct (release_times p b D j _ w1 Hl1 ltac:(lia)) as (w' & Hr' & _ & Hd').
    exists w'. rewrite (bind_returns _ _ _ _ _ Hr). split; [exact Hr' | congruence].
  - assert (exists m, n = N.succ m) as [m ->] by (exists (N.pred n); lia).
    destruct (release_times p b D m _ w1 Hl1 ltac:(lia)) as (w2 & Hr2 & Hl2 & Hd2).
    replace (Z.of_N (N.succ m) - Z.of_N m) with 1 in Hl2 by lia.
    eexists. rewrite (bind_returns _ _ _ _ _ Hr), times_succ_r.
    rewrite (bind_returns _ _ _ _ _ Hr2).
    rewrite (release_last _ _ _ _ Hl2) by reflexivity.
    split; [reflexivity|]. split.
    + rewrite deinit_calls_torn_down. unfold deinit_called. simpl RefCountBox.deinit.
      destruct (Z.eqb_spec D 0) as [E|_]; [contradiction|].
      rewrite deinit_calls_say_deinit, !deinit_calls_say_log. congruence.
    + apply dead_torn_down. unfold deinit_called.
      destruct (_ =? 0); apply Hl2.
Qed.

Lemma retain_release_deinit_once_witness :
  sane world0 /\ 77 <> 0 /\ 1 <= Z.of_N 3 <= UINT32_MAX /\
  trill_allocateIndirectType 8 77 world0 = Returns 4104 (created 8 77 world0) /\
  exists w', (times 3 (trill_retain 4104) ;; times 3 (trill_release 4104))
               (created 8 77 world0) = Returns tt w' /\
             deinit_calls w' = deinit_calls (created 8 77 world0) ++ [(77, 4104)] /\
             dead 4104 w'.
Proof.
  assert (H1 : sane world0) by reflexivity.
  assert (H2 : 77 <> 0) by discriminate.
  assert (H3 : 1 <= Z.of_N 3 <= UINT32_MAX) by (split; discriminate).
  assert (H4 : trill_allocateIndirectType 8 77 world0 = Returns 4104 (created 8 77 world0))
    by reflexivity.
  repeat split; try assumption; try discriminate.
  exact (proj2 (proj2 (retain_release_deinit_once 8 77 world0 4104 _ 3 H1 H2 H3 H4))).
Defined.

(** C1, as stated, fails once the count is exhausted: of 2^32 retains the
    last one finds the count at [UINT32_MAX] and ends the process, so the
    releases never run, the deinitializer is never called, and the sequence
    does not return having called it once. *)
Lemma retain_release_overflow_counterexample :
  sane world0 /\ 1 <> 0 /\ (1 <= 4294967296)%N /\
  trill_allocateIndirectType 8 1 world0 = Returns 4104 (created 8 1 world0) /\
  (exists wf,
     (times 4294967296 (trill_retain 4104) ;; times 4294967296 (trill_release 4104))
       (created 8 1 world0) = Fatal "retain count overflow" wf /\
     deinit_calls wf = []) /\
  ~ (exists w',
       (times 4294967296 (trill_retain 4104) ;; times 4294967296 (trill_release 4104))
         (created 8 1 world0) = Returns tt w' /\
       deinit_calls w' = deinit_calls (created 8 1 world0) ++ [(1, 4104)]).
Proof.
  split; [reflexivity|]. split; [discriminate|]. split; [discriminate|].
  split; [reflexivity|].
  destruct (retain_exhausts 4104 4112 1 4294967295 0 (created 8 1 world0)
              (fun _ => times 4294967296 (trill_release 4104))
              (created_world0_live 1) eq_refl) as (wf & Hrun & Hcalls).
  split.
  - exists wf. split; [exact Hrun | rewrite Hcalls; reflexivity].
  - intros (w' & Hret & _).
    assert (E : Fatal "retain count overflow" wf = Returns tt w').
    { rewrite <- Hret. symmetry. exact Hrun. }
    discriminate E.
Qed.

(** C2. On a live object, [release] ends the process with the message
    "attempting to release object with retain count 0" when the count is 0 at
    entry. Otherwise it writes the count minus one into the header (under the
    lock, with one diagnostic line) and then either tears the object down,
    when that count is zero, or unlocks; in the latter case the object is
    live again with the lower count and nothing else in the world has
    changed. *)
Theorem release_fatal_or_decrements p b bx w :
  live p b bx w ->
  let c := RefCountBox.retainCount bx in
  let d := RefCountBox.deinit bx in
  (c = 0 ->
     trill_release p w =
     Fatal "attempting to release object with retain count 0"
       (upd b (RefCountBox.with_mutex true bx) w)) /\
  (c <> 0 ->
     let w1 := say (EvLog "releasing object" p (c - 1))
                 (upd b (RefCountBox.mk (c - 1) d true) w) in
     trill_release p w =
     if c - 1 =? 0 then RefCounted.dealloc (RefCounted.from p) w1
     else Returns tt (upd b (RefCountBox.mk (c - 1) d false) w1)) /\
  (c <> 0 -> c - 1 <> 0 ->
     let w' := say (EvLog "releasing object" p (c - 1))
                 (upd b (RefCountBox.mk (c - 1) d false) w) in
     trill_release p w = Returns tt w' /\
     live p b (RefCountBox.mk (c - 1) d false) w' /\
     mem w' = mem w /\ regions w' = regions w /\ brk w' = brk w /\
     deinit_calls w' = deinit_calls w /\
     forall b', b' <> b -> boxes w' !! b' = boxes w !! b').
Proof.
  intros Hl c d. split; [|split].
  - intros H0. exact (release_underflow _ _ _ _ Hl H0).
  - intros H0 w1. rewrite (release_decrements _ _ _ _ Hl H0).
    rewrite (live_with_retainCount _ _ _ _ _ Hl). reflexivity.
  - intros H0 H1 w'.
    assert (Hc : 0 <= c <= UINT32_MAX) by apply Hl.
    split; [|split; [|repeat split]].
    + rewrite (release_keep _ _ _ _ Hl) by (fold c; lia).
      rewrite (live_with_retainCount _ _ _ _ _ Hl). reflexivity.
    + apply live_say, live_upd with (1 := Hl); simpl; [reflexivity | lia].
    + subst w'. rewrite deinit_calls_say_log. reflexivity.
    + intros b' Hb'. subst w'. world_simpl. apply lookup_insert_ne. congruence.
Qed.

Lemma release_fatal_or_decrements_witness :
  live 4104 4112 (RefCountBox.mk 2 77 false) (example_world 2 77) /\
  trill_release 4104 (example_world 2 77) =
  Returns tt (say (EvLog "releasing object" 4104 1)
                (upd 4112 (RefCountBox.mk 1 77 false) (example_world 2 77))).
Proof.
  assert (Hl : live 4104 4112 (RefCountBox.mk 2 77 false) (example_world 2 77)).
  { apply example_live. split; discriminate. }
  split; [exact Hl|].
  refine (proj1 (proj2 (proj2 (release_fatal_or_decrements _ _ _ _ Hl)) _ _));
    discriminate.
Defined.

(** C3 (as amended). On a live object, [retain] ends the process with the
    message "retain count overflow" when the count equals [UINT32_MAX], the
    header still holding that count; otherwise it returns with the count
    raised by exactly one and the object live. Its only other side effect is
    diagnostic output: it appends to the process's output one line before it
    takes the lock (on both paths) and a second one after the increment;
    memory, regions, break, the other headers and the deinitializer calls are
    as before. *)
Theorem retain_fatal_or_increments p b bx w :
  live p b bx w ->
  let c := RefCountBox.retainCount bx in
  let d := RefCountBox.deinit bx in
  (c = UINT32_MAX ->
     exists wf,
       trill_retain p w = Fatal "retain count overflow" wf /\
       box_is b (RefCountBox.mk c d true) wf /\
       mem wf = mem w /\ regions wf = regions w /\ brk wf = brk w /\
       deinit_calls wf = deinit_calls w /\
       (forall b', b' <> b -> boxes wf !! b' = boxes w !! b') /\
       trace wf = trace w ++ [EvLog (show_ptr p) p c]) /\
  (c <> UINT32_MAX ->
     let w' := say (EvLog "retaining object" p (c + 1))
                 (say (EvLog (show_ptr p) p c)
                    (upd b (RefCountBox.mk (c + 1) d false) w)) in
     trill_retain p w = Returns tt w' /\
     live p b (RefCountBox.mk (c + 1) d false) w' /\
     mem w' = mem w /\ regions w' = regions w /\ brk w' = brk w /\
     deinit_calls w' = deinit_calls w /\
     (forall b', b' <> b -> boxes w' !! b' = boxes w !! b') /\
     trace w' = trace w ++ [EvLog (show_ptr p) p c; EvLog "retaining object" p (c + 1)]).
Proof.
  intros Hl c d.
  assert (Hc : 0 <= c <= UINT32_MAX) by apply Hl.
  split.
  - intros Hmax. eexists. split; [exact (retain_overflow _ _ _ _ Hl Hmax)|].
    split; [apply box_is_say, box_is_upd|].
    split; [reflexivity|]. split; [reflexivity|]. split; [reflexivity|].
    split; [rewrite deinit_calls_say_log; reflexivity|].
    split; [|reflexivity].
    intros b' Hb'. world_simpl. apply lookup_insert_ne. congruence.
  - intros Hmax w'.
    split.
    { rewrite (retain_ok _ _ _ _ Hl Hmax).
      rewrite (live_with_retainCount _ _ _ _ _ Hl). reflexivity. }
    split.
    { apply live_say, live_say, live_upd with (1 := Hl); simpl; [reflexivity | lia]. }
    split; [reflexivity|]. split; [reflexivity|]. split; [reflexivity|].
    split; [subst w'; rewrite !deinit_calls_say_log; reflexivity|].
    split.
    + intros b' Hb'. subst w'. world_simpl. apply lookup_insert_ne. congruence.
    + subst w'. world_simpl. rewrite <- app_assoc. reflexivity.
Qed.

Lemma retain_fatal_or_increments_witness :
  live 4104 4112 (RefCountBox.mk UINT32_MAX 77 false) (example_world UINT32_MAX 77) /\
  exists wf,
    trill_retain 4104 (example_world UINT32_MAX 77) = Fatal "retain count overflow" wf /\
    box_is 4112 (RefCountBox.mk UINT32_MAX 77 true) wf.
Proof.
  assert (Hl : live 4104 4112 (RefCountBox.mk UINT32_MAX 77 false)
                 (example_world UINT32_MAX 77)).
  { apply example_live. split; discriminate. }
  split; [exact Hl|].
  destruct (proj1 (retain_fatal_or_increments _ _ _ _ Hl) eq_refl)
    as (wf & Hrun & Hbox & _).
  exists wf. split; assumption.
Defined.

(** C3, as stated, fails on the diagnostics: [DEBUG_ARC] is defined, so a
    retain that succeeds does not only raise the count. On the object with
    count 1 it returns in a world that is not the starting world with the
    count set to 2: two lines have been written to the output. *)
Lemma retain_side_effect_counterexample :
  live 4104 4112 (RefCountBox.mk 1 77 false) (example_world 1 77) /\
  exists w',
    trill_retain 4104 (example_world 1 77) = Returns tt w' /\
    boxes w' !! 4112 = Some (RefCountBox.mk 2 77 false) /\
    trace (example_world 1 77) = [] /\
    trace w' = [EvLog "0x1008" 4104 1; EvLog "retaining object" 4104 2] /\
    w' <> upd 4112 (RefCountBox.mk 2 77 false) (example_world 1 77).
Proof.
  split.
  { apply example_live. split; discriminate. }
  eexists. split; [vm_compute; reflexivity|].
  split; [reflexivity|]. split; [reflexivity|]. split; [reflexivity|].
  intros E. apply (f_equal trace) in E. discriminate E.
Qed.

(** C4. Once a release has brought the count of a live object from 1 to 0 and
    returned, the back-link slot holds null, and each of [retain], [release],
    [isUniquelyReferenced] and [retainCount] on the same payload address ends
    the process with "object (<address>) used after deallocation", in the very
    world it was called in. *)
Theorem use_after_teardown_fatal p b bx w w' :
  live p b bx w ->
  RefCountBox.retainCount bx = 1 ->
  trill_release p w = Returns tt w' ->
  let msg := ("object (" +:+ show_ptr p +:+ ") used after deallocation")%string in
  dead p w' /\
  trill_retain p w' = Fatal msg w' /\
  trill_release p w' = Fatal msg w' /\
  trill_isUniquelyReferenced p w' = Fatal msg w' /\
  RefCounted.retainCount (RefCounted.from p) w' = Fatal msg w'.
Proof.
  intros Hl H1 Hrun msg.
  rewrite (release_last _ _ _ _ Hl H1) in Hrun. injection Hrun as <-.
  match goal with |- dead p ?w1 /\ _ => assert (Hdead : dead p w1) end.
  { apply dead_torn_down. unfold deinit_called. destruct (_ =? 0); apply Hl. }
  split; [exact Hdead|].
  pose proof (check_dead _ _ Hdead) as Hcheck.
  repeat split.
  - unfold trill_retain, RefCounted.retain. apply bind_fatal, Hcheck.
  - unfold trill_release, RefCounted.release. apply bind_fatal, Hcheck.
  - unfold trill_isUniquelyReferenced, RefCounted.isUniquelyReferenced.
    apply bind_fatal, bind_fatal, Hcheck.
  - unfold RefCounted.retainCount. apply bind_fatal, Hcheck.
Qed.

Lemma use_after_teardown_fatal_witness :
  live 4104 4112 (RefCountBox.mk 1 77 false) (example_world 1 77) /\
  exists w',
    trill_release 4104 (example_world 1 77) = Returns tt w' /\
    trill_retain 4104 w' = Fatal "object (0x1008) used after deallocation" w' /\
    trill_release 4104 w' = Fatal "object (0x1008) used after deallocation" w'.
Proof.
  assert (Hl : live 4104 4112 (RefCountBox.mk 1 77 false) (example_world 1 77)).
  { apply example_live. split; discriminate. }
  split; [exact Hl|].
  eexists. split; [exact (release_last _ _ _ _ Hl eq_refl)|].
  destruct (use_after_teardown_fatal _ _ _ _ _ Hl eq_refl (release_last _ _ _ _ Hl eq_refl))
    as (_ & Hretain & Hrelease & _).
  split; [exact Hretain | exact Hrelease].
Defined.

(** C5. Whatever the size and the deinitializer, right after
    [trill_allocateIndirectType] has returned a payload address the retain
    count of that object reads 0, and a [release] on it ends the process with
    "attempting to release object with retain count 0". *)
Theorem allocate_count_zero_release_fatal size deinit w p w' :
  sane w ->
  trill_allocateIndirectType size deinit w = Returns p w' ->
  RefCounted.retainCount (RefCounted.from p) w' =
    Returns 0 (say (EvLog "getting retain count" p 0) w') /\
  exists wf,
    trill_release p w' = Fatal "attempting to release object with retain count 0" wf.
Proof.
  intros Hsane Halloc.
  apply allocate_inv in Halloc as (this & Hcreate & ->).
  destruct (created_live _ _ _ _ _ Hsane Hcreate) as (_ & Hl).
  split.
  - exact (retainCount_ok _ _ _ _ Hl).
  - eexists. exact (release_underflow _ _ _ _ Hl eq_refl).
Qed.

Lemma allocate_count_zero_release_fatal_witness :
  sane world0 /\
  trill_allocateIndirectType 8 77 world0 = Returns 4104 (created 8 77 world0) /\
  RefCounted.retainCount (RefCounted.from 4104) (created 8 77 world0) =
    Returns 0 (say (EvLog "getting retain count" 4104 0) (created 8 77 world0)).
Proof.
  split; [exact world0_sane|]. split; [exact (allocate_world0 77)|].
  exact (proj1 (allocate_count_zero_release_fatal 8 77 world0 4104 _
                  world0_sane (allocate_world0 77))).
Defined.

(** C6. On a live object [isUniquelyReferenced] returns true exactly when the
    count is 1 (so false for 0 and for 2 or more), the exported function
    returns 1 or 0 accordingly, and both leave the world as they found it. *)
Theorem isUniquelyReferenced_iff_one p b bx w :
  live p b bx w ->
  exists r : bool,
    RefCounted.isUniquelyReferenced (RefCounted.from p) w = Returns r w /\
    trill_isUniquelyReferenced p w = Returns (if r then 1 else 0) w /\
    (r = true <-> RefCountBox.retainCount bx = 1).
Proof.
  intros Hl. exists (RefCountBox.retainCount bx =? 1).
  pose proof (isUniquelyReferenced_ok _ _ _ _ Hl) as Hrun.
  split; [exact Hrun|]. split.
  - unfold trill_isUniquelyReferenced.
    rewrite (bind_returns _ _ _ _ _ Hrun). reflexivity.
  - apply Z.eqb_eq.
Qed.

Lemma isUniquelyReferenced_iff_one_witness :
  live 4104 4112 (RefCountBox.mk 2 0 false) (example_world 2 0) /\
  exists r : bool,
    trill_isUniquelyReferenced 4104 (example_world 2 0) =
      Returns (if r then 1 else 0) (example_world 2 0) /\
    (r = true <-> 2 = 1).
Proof.
  assert (Hl : live 4104 4112 (RefCountBox.mk 2 0 false) (example_world 2 0)).
  { apply example_live. split; discriminate. }
  split; [exact Hl|].
  destruct (isUniquelyReferenced_iff_one _ _ _ _ Hl) as (r & _ & Hrun & Hiff).
  exists r. split; [exact Hrun | exact Hiff].
Defined.

(** C7. For the [RefCounted] that the allocating constructor returns, the
    constructor from its payload address yields the same slot and payload
    address, and reading the slot, [sizeof_ptr] below the payload, yields the
    non-null address of the header the allocation has just added to the free
    store, with count 0, the given deinitializer and a free mutex. *)
Theorem resolve_box_roundtrip size deinit w this w' :
  sane w ->
  RefCounted.create size deinit w = Returns this w' ->
  RefCounted.from (RefCounted.value this) = this /\
  RefCounted.boxPtr this = wrap_ptr (RefCounted.value this - sizeof_ptr) /\
  trill_allocateIndirectType size deinit w = Returns (RefCounted.value this) w' /\
  exists b,
    RefCounted.box (RefCounted.from (RefCounted.value this)) w' = Returns b w' /\
    b <> 0 /\
    boxes w' = <[b := RefCountBox.mk 0 deinit false]> (boxes w) /\
    deref b w' = Returns (RefCountBox.mk 0 deinit false) w'.
Proof.
  intros Hsane Hcreate.
  destruct (created_live _ _ _ _ _ Hsane Hcreate) as (Hrt & Hs & Hn & Hb & _).
  split; [exact Hrt|]. split; [rewrite <- Hrt at 1; reflexivity|]. split.
  - unfold trill_allocateIndirectType. rewrite (bind_returns _ _ _ _ _ Hcreate).
    reflexivity.
  - eexists. split; [exact (box_ok _ _ _ Hs)|]. split; [exact Hn|]. split.
    + apply created_inv in Hcreate as (_ & -> & _). reflexivity.
    + exact (deref_ok _ _ _ Hb).
Qed.

Lemma resolve_box_roundtrip_witness :
  sane world0 /\
  RefCounted.create 8 77 world0 = Returns (RefCounted.mk 4096 4104) (created 8 77 world0) /\
  RefCounted.from 4104 = RefCounted.mk 4096 4104 /\
  exists b,
    RefCounted.box (RefCounted.from 4104) (created 8 77 world0) =
      Returns b (created 8 77 world0) /\
    deref b (created 8 77 world0) =
      Returns (RefCountBox.mk 0 77 false) (created 8 77 world0).
Proof.
  assert (Hc : RefCounted.create 8 77 world0 =
               Returns (RefCounted.mk 4096 4104) (created 8 77 world0)) by reflexivity.
  split; [exact world0_sane|]. split; [exact Hc|].
  destruct (resolve_box_roundtrip 8 77 world0 _ _ world0_sane Hc)
    as (Hrt & _ & _ & b & Hbox & _ & _ & Hderef).
  split; [exact Hrt|]. exists b. split; [exact Hbox | exact Hderef].
Defined.

(** C8. No straight-line client of the runtime's operations, started in any
    world whatsoever, ends in the defensive check of [dealloc] ("object
    deallocated with retain count > 0"): [dealloc] is only entered from
    [release], right after the count was read as zero. *)
Theorem teardown_check_unreachable (cs : list Call) (w : World) :
  teardown_violation (perform_all cs w) = false.
Proof.
  revert w. change (harmless (perform_all cs)).
  induction cs as [|c rest IH]; simpl.
  - apply harmless_ret.
  - apply harmless_bind; [apply harmless_perform | intros _; exact IH].
Qed.

(** The check itself is live code: entered with a positive count, [dealloc]
    does end the process there. *)
Example dealloc_guard_fires :
  RefCounted.dealloc (RefCounted.from 4104) (example_world 1 77) =
  Fatal teardown_msg (example_world 1 77).
Proof. reflexivity. Qed.

(** C9. Teardown of an object whose count is 0 and whose mutex is held
    returns, and in the world it leaves: the regions handed out by
    [trill_alloc] and the break are as before (nothing goes back to the
    allocator), the free store has lost exactly the header, memory differs
    exactly in the back-link slot, which now holds null, and reading that slot
    succeeds and gives null. *)
Theorem teardown_frame this b bx w :
  slot_is this b w -> b <> 0 -> box_is b bx w ->
  RefCountBox.retainCount bx = 0 -> RefCountBox.mutex bx = true ->
  exists w',
    RefCounted.dealloc this w = Returns tt w' /\
    regions w' = regions w /\
    brk w' = brk w /\
    boxes w' = delete b (boxes w) /\
    mem w' = <[RefCounted.boxPtr this := 0]> (mem w) /\
    RefCounted.box this w' = Returns 0 w'.
Proof.
  intros Hs Hn Hb Hc Hm. eexists.
  split; [exact (dealloc_ok _ _ _ _ Hs Hn Hb Hc Hm)|].
  unfold deinit_called.
  destruct (RefCountBox.deinit bx =? 0); repeat split;
    apply box_ok; (split; [apply Hs | apply lookup_insert_eq]).
Qed.

Lemma teardown_frame_witness :
  let this := RefCounted.from 4104 in
  let w := upd 4112 (RefCountBox.mk 0 77 true) (example_world 0 77) in
  slot_is this 4112 w /\
  exists w',
    RefCounted.dealloc this w = Returns tt w' /\
    regions w' = [(4096, 16)] /\
    boxes w' = delete 4112 (boxes w) /\
    RefCounted.box this w' = Returns 0 w'.
Proof.
  intros this w.
  assert (Hs : slot_is this 4112 w) by (split; reflexivity).
  split; [exact Hs|].
  destruct (teardown_frame this 4112 (RefCountBox.mk 0 77 true) w Hs)
    as (w' & Hrun & Hreg & _ & Hbox & _ & Hread);
    try reflexivity; try discriminate.
  exists w'. split; [exact Hrun|]. split; [exact Hreg|]. split; [exact Hbox | exact Hread].
Defined.

(** * Further properties of the runtime *)

(** ** Round trips and silent teardown *)

(** X1. On a live object that someone already holds (count at least 1 and
    below the maximum), a retain followed by a release gives back the heap it
    started from: same memory words, regions, break and headers, and no
    deinitializer call. *)
Theorem retain_release_roundtrip p b bx w :
  live p b bx w ->
  1 <= RefCountBox.retainCount bx < UINT32_MAX ->
  exists w1 w2,
    trill_retain p w = Returns tt w1 /\
    trill_release p w1 = Returns tt w2 /\
    mem w2 = mem w /\ regions w2 = regions w /\ boxes w2 = boxes w /\
    brk w2 = brk w /\ deinit_calls w2 = deinit_calls w.
Proof.
  intros Hl Hc.
  assert (Hb : box_is b bx w) by apply Hl.
  pose proof (live_with_retainCount _ _ _ _ (RefCountBox.retainCount bx + 1) Hl) as E1.
  assert (Hl1 : live p b (RefCountBox.mk (RefCountBox.retainCount bx + 1)
                            (RefCountBox.deinit bx) false)
                  (say (EvLog "retaining object" p (RefCountBox.retainCount bx + 1))
                     (say (EvLog (show_ptr p) p (RefCountBox.retainCount bx))
                        (upd b (RefCountBox.with_retainCount
                                  (RefCountBox.retainCount bx + 1) bx) w)))).
  { rewrite E1. apply live_say, live_say, live_upd with (1 := Hl); simpl; [reflexivity | lia]. }
  eexists. eexists.
  split; [apply (retain_ok _ _ _ _ Hl); lia|].
  split; [apply (release_keep _ _ _ _ Hl1); simpl; lia|].
  repeat split.
  - world_simpl. rewrite insert_insert_eq.
    apply insert_id. unfold box_is in Hb. rewrite Hb. f_equal.
    destruct Hl as (_ & _ & _ & Hm & _). destruct bx as [c d m].
    simpl in Hm. subst m. unfold RefCountBox.with_retainCount. simpl.
    replace (c + 1 - 1) with c by lia. reflexivity.
  - repeat rewrite ?deinit_calls_say_log, ?deinit_calls_upd. reflexivity.
Qed.

Lemma retain_release_roundtrip_witness :
  live 4104 4112 (RefCountBox.mk 1 77 false) (example_world 1 77) /\
  exists w1 w2,
    trill_retain 4104 (example_world 1 77) = Returns tt w1 /\
    trill_release 4104 w1 = Returns tt w2 /\
    boxes w2 = boxes (example_world 1 77).
Proof.
  assert (Hl : live 4104 4112 (RefCountBox.mk 1 77 false) (example_world 1 77)).
  { apply example_live. split; discriminate. }
  split; [exact Hl|].
  destruct (retain_release_roundtrip _ _ _ _ Hl) as (w1 & w2 & H1 & H2 & _ & _ & H3 & _).
  { split; [discriminate | reflexivity]. }
  exists w1, w2. repeat split; assumption.
Defined.

(** X2. The last release of an object allocated without a deinitializer
    tears it down without calling anything: the header leaves the free store
    and the slot is nulled, the list of deinitializer calls is as before. *)
Theorem release_null_deinit_silent p b bx w :
  live p b bx w ->
  RefCountBox.retainCount bx = 1 ->
  RefCountBox.deinit bx = 0 ->
  exists w',
    trill_release p w = Returns tt w' /\
    deinit_calls w' = deinit_calls w /\
    boxes w' = delete b (boxes w) /\
    dead p w'.
Proof.
  intros Hl H1 Hd. eexists.
  split; [exact (release_last _ _ _ _ Hl H1)|].
  rewrite Hd. unfold deinit_called. simpl.
  repeat split.
  - rewrite deinit_calls_torn_down, !deinit_calls_say_log. reflexivity.
  - apply Hl.
  - world_simpl. apply lookup_insert_eq.
Qed.

Lemma release_null_deinit_silent_witness :
  live 4104 4112 (RefCountBox.mk 1 0 false) (example_world 1 0) /\
  exists w',
    trill_release 4104 (example_world 1 0) = Returns tt w' /\
    deinit_calls w' = deinit_calls (example_world 1 0).
Proof.
  assert (Hl : live 4104 4112 (RefCountBox.mk 1 0 false) (example_world 1 0)).
  { apply example_live. split; discriminate. }
  split; [exact Hl|].
  destruct (release_null_deinit_silent _ _ _ _ Hl eq_refl eq_refl) as (w' & H1 & H2 & _).
  exists w'. split; assumption.
Defined.

(** ** The guards of [dealloc] and of the mutex *)

(** X3. [dealloc] entered on an object that is still referenced (positive
    count) ends the process with "object deallocated with retain count > 0"
    before touching anything: the world of the fatal error is the world it
    was entered in, and no deinitializer has run. *)
Theorem dealloc_referenced_fatal this b bx w :
  slot_is this b w -> b <> 0 -> box_is b bx w ->
  0 < RefCountBox.retainCount bx ->
  RefCounted.dealloc this w = Fatal "object deallocated with retain count > 0" w.
Proof.
  intros Hs Hn Hb Hc. unfold RefCounted.dealloc.
  by_step check_live. by_step box_ok. by_step deref_ok.
  destruct (Z.ltb_spec 0 (RefCountBox.retainCount bx)) as [_|Hge]; [reflexivity | lia].
Qed.

Lemma dealloc_referenced_fatal_witness :
  slot_is (RefCounted.from 4104) 4112 (example_world 3 77) /\
  RefCounted.dealloc (RefCounted.from 4104) (example_world 3 77) =
  Fatal "object deallocated with retain count > 0" (example_world 3 77).
Proof.
  assert (Hs : slot_is (RefCounted.from 4104) 4112 (example_world 3 77))
    by (split; reflexivity).
  split; [exact Hs|].
  apply (dealloc_referenced_fatal _ 4112 (RefCountBox.mk 3 77 false) _ Hs);
    [discriminate | reflexivity | reflexivity].
Defined.

(** X4. While the mutex of an object is held by the caller (as it is while
    its deinitializer runs), none of the four operations on that object comes
    back or reports an error: each one locks before it looks at the count, so
    each is a second [lock()] of a non-recursive mutex. In particular a
    re-entrant release never reaches the underflow check. *)
Theorem reentrant_call_relocks p b bx w :
  slot_is (RefCounted.from p) b w -> b <> 0 -> box_is b bx w ->
  RefCountBox.mutex bx = true ->
  trill_retain p w = Stuck Relock /\
  trill_release p w = Stuck Relock /\
  trill_isUniquelyReferenced p w = Stuck Relock /\
  RefCounted.retainCount (RefCounted.from p) w = Stuck Relock.
Proof.
  intros Hs Hn Hb Hm.
  assert (Hlock : forall w', slot_is (RefCounted.from p) b w' -> box_is b bx w' ->
                             mutex_lock b w' = Stuck Relock).
  { intros w' _ Hb'. unfold mutex_lock.
    rewrite (bind_returns _ _ _ _ _ (deref_ok _ _ _ Hb')), Hm. reflexivity. }
  repeat split.
  - unfold trill_retain, RefCounted.retain.
    by_step check_live. by_step log_ok. by_step box_ok.
    rewrite bind_run, Hlock; auto with arc.
  - unfold trill_release, RefCounted.release.
    by_step check_live. by_step box_ok.
    rewrite bind_run, Hlock; auto.
  - unfold trill_isUniquelyReferenced, RefCounted.isUniquelyReferenced.
    rewrite bind_run.
    by_step check_live. by_step box_ok.
    rewrite bind_run, Hlock; auto.
  - unfold RefCounted.retainCount.
    by_step check_live. by_step box_ok.
    rewrite bind_run, Hlock; auto.
Qed.

Lemma reentrant_call_relocks_witness :
  let w := upd 4112 (RefCountBox.mk 0 77 true) (example_world 0 77) in
  slot_is (RefCounted.from 4104) 4112 w /\
  trill_retain 4104 w = Stuck Relock /\
  trill_release 4104 w = Stuck Relock.
Proof.
  intros w.
  assert (Hs : slot_is (RefCounted.from 4104) 4112 w) by (split; reflexivity).
  split; [exact Hs|].
  destruct (reentrant_call_relocks 4104 4112 (RefCountBox.mk 0 77 true) w Hs)
    as (H1 & H2 & _); try reflexivity; try discriminate.
  split; assumption.
Defined.

(** ** Other objects *)

Lemma live_upd_other p b bx b' bx' w :
  live p b bx w -> b' <> b -> live p b bx (upd b' bx' w).
Proof.
  intros (Hs & Hn & Hb & Hm & Hc) Hne. repeat split; try assumption; try apply Hs; try apply Hc.
  unfold box_is. world_simpl. rewrite lookup_insert_ne by exact Hne. exact Hb.
Qed.

Lemma live_deinit_called p b bx fn v w :
  live p b bx w -> live p b bx (deinit_called fn v w).
Proof. intros H. unfold deinit_called. destruct (fn =? 0); exact H. Qed.

Lemma live_torn_down_other p b bx this b' w :
  live p b bx w -> b' <> b ->
  RefCounted.boxPtr this <> RefCounted.boxPtr (RefCounted.from p) ->
  live p b bx (torn_down this b' w).
Proof.
  intros (Hs & Hn & Hb & Hm & Hc) Hne Hslot.
  repeat split; try assumption; try apply Hs; try apply Hc.
  - unfold torn_down. world_simpl. rewrite lookup_insert_ne by exact Hslot. apply Hs.
  - unfold box_is, torn_down. world_simpl. rewrite lookup_delete_ne by exact Hne. exact Hb.
Qed.

(** X5. A retain of one object, or a release of it that calls no
    deinitializer (the count stays above zero, or the object has none),
    leaves every other live object exactly as it was: same slot, same header
    with the same count and deinitializer, mutex free. (What a deinitializer
    does to other objects is the callee's business and is not claimed.) *)
Theorem other_object_untouched p1 b1 bx1 p2 b2 bx2 w w' :
  live p1 b1 bx1 w -> live p2 b2 bx2 w ->
  b1 <> b2 ->
  RefCounted.boxPtr (RefCounted.from p1) <> RefCounted.boxPtr (RefCounted.from p2) ->
  trill_retain p1 w = Returns tt w' \/
  (trill_release p1 w = Returns tt w' /\
   (RefCountBox.retainCount bx1 = 1 -> RefCountBox.deinit bx1 = 0)) ->
  live p2 b2 bx2 w'.
Proof.
  intros Hl1 Hl2 Hb Hslot [Hrun|[Hrun Hnull]].
  - destruct (Z.eq_dec (RefCountBox.retainCount bx1) UINT32_MAX) as [E|E].
    + rewrite (retain_overflow _ _ _ _ Hl1 E) in Hrun. discriminate.
    + rewrite (retain_ok _ _ _ _ Hl1 E) in Hrun. injection Hrun as <-.
      apply live_say, live_say, live_upd_other; assumption.
  - destruct (Z.eq_dec (RefCountBox.retainCount bx1) 0) as [E0|E0].
    { rewrite (release_underflow _ _ _ _ Hl1 E0) in Hrun. discriminate. }
    destruct (Z.eq_dec (RefCountBox.retainCount bx1) 1) as [E1|E1].
    + rewrite (release_last _ _ _ _ Hl1 E1), (Hnull E1) in Hrun.
      injection Hrun as <-.
      apply live_torn_down_other; [|assumption..].
      change (deinit_called 0 p1 ?w0) with w0.
      apply live_say, live_say. exact Hl2.
    + rewrite (release_keep _ _ _ _ Hl1 E0 E1) in Hrun. injection Hrun as <-.
      apply live_say, live_upd_other; assumption.
Qed.

Lemma other_object_untouched_witness :
  live 4104 4112 (RefCountBox.mk 1 0 false) (two_objects 1 0) /\
  live 4176 4184 (RefCountBox.mk 5 0 false) (two_objects 1 0) /\
  exists w', trill_release 4104 (two_objects 1 0) = Returns tt w' /\
             live 4176 4184 (RefCountBox.mk 5 0 false) w'.
Proof.
  assert (Hl1 : live 4104 4112 (RefCountBox.mk 1 0 false) (two_objects 1 0)).
  { unfold live, slot_is, box_is. repeat split; try reflexivity; discriminate. }
  assert (Hl2 : live 4176 4184 (RefCountBox.mk 5 0 false) (two_objects 1 0)).
  { unfold live, slot_is, box_is. repeat split; try reflexivity; discriminate. }
  split; [exact Hl1|]. split; [exact Hl2|].
  eexists. split; [exact (release_last _ _ _ _ Hl1 eq_refl)|].
  apply (other_object_untouched 4104 4112 _ 4176 4184 _ (two_objects 1 0) _ Hl1 Hl2);
    [discriminate | discriminate |].
  right. split; [exact (release_last _ _ _ _ Hl1 eq_refl) | reflexivity].
Defined.

(** ** What the observers see *)

(** X6. After an allocation, [n] retains and [j < n] releases (with [n]
    within the count's range), [retainCount] reads [n - j], and
    [trill_isUniquelyReferenced] answers 1 exactly when [n - j = 1]. *)
Theorem observers_after_balance size d w p w0 n j :
  sane w ->
  trill_allocateIndirectType size d w = Returns p w0 ->
  Z.of_N n <= UINT32_MAX -> (j < n)%N ->
  exists w1,
    (times n (trill_retain p) ;; times j (trill_release p)) w0 = Returns tt w1 /\
    RefCounted.retainCount (RefCounted.from p) w1 =
      Returns (Z.of_N n - Z.of_N j)
        (say (EvLog "getting retain count" p (Z.of_N n - Z.of_N j)) w1) /\
    trill_isUniquelyReferenced p w1 =
      Returns (if Z.of_N n - Z.of_N j =? 1 then 1 else 0) w1.
Proof.
  intros Hsane Halloc Hn Hj.
  apply allocate_inv in Halloc as (this & Hcreate & ->).
  destruct (created_live _ _ _ _ _ Hsane Hcreate) as (_ & Hl).
  set (p := RefCounted.value this) in *.
  set (b := brk w + wrap_ptr (sizeof_ptr + size)) in *.
  destruct (retain_times p b d n 0 w0 Hl ltac:(lia)) as (w1 & Hr & Hl1 & _).
  rewrite Z.add_0_l in Hl1.
  destruct (release_times p b d j _ w1 Hl1 ltac:(lia)) as (w2 & Hr2 & Hl2 & _).
  exists w2. split; [rewrite (bind_returns _ _ _ _ _ Hr); exact Hr2|]. split.
  - exact (retainCount_ok _ _ _ _ Hl2).
  - unfold trill_isUniquelyReferenced.
    rewrite (bind_returns _ _ _ _ _ (isUniquelyReferenced_ok _ _ _ _ Hl2)).
    reflexivity.
Qed.

Lemma observers_after_balance_witness :
  sane world0 /\
  trill_allocateIndirectType 8 0 world0 = Returns 4104 (created 8 0 world0) /\
  exists w1,
    (times 3 (trill_retain 4104) ;; times 2 (trill_release 4104)) (created 8 0 world0)
      = Returns tt w1 /\
    trill_isUniquelyReferenced 4104 w1 = Returns 1 w1.
Proof.
  split; [exact world0_sane|]. split; [exact (allocate_world0 0)|].
  destruct (observers_after_balance 8 0 world0 4104 _ 3 2 world0_sane (allocate_world0 0))
    as (w1 & Hrun & _ & Huniq); [discriminate | reflexivity |].
  exists w1. split; [exact Hrun | exact Huniq].
Defined.

(** ** Sequences of operations on one object *)

(** One operation that the counter allows: the object stays live with the
    counter's new value, and only its header changed. *)
Lemma counter_step_sound p b d c c' o w :
  live p b (RefCountBox.mk c d false) w ->
  counter_step c o = Some c' ->
  exists w',
    perform (obj_call p o) w = Returns tt w' /\
    live p b (RefCountBox.mk c' d false) w' /\
    boxes w' = <[b := RefCountBox.mk c' d false]> (boxes w) /\
    mem w' = mem w /\ regions w' = regions w /\ brk w' = brk w /\
    deinit_calls w' = deinit_calls w.
Proof.
  intros Hl Hstep.
  assert (Hc : 0 <= c <= UINT32_MAX) by apply Hl.
  assert (Hb : box_is b (RefCountBox.mk c d false) w) by apply Hl.
  destruct o; simpl in Hstep |- *.
  - destruct (Z.eqb_spec c UINT32_MAX) as [|Hmax]; [discriminate|].
    injection Hstep as <-.
    eexists. split; [exact (retain_ok _ _ _ _ Hl Hmax)|].
    split; [|repeat split].
    + apply live_say, live_say, live_upd with (1 := Hl); simpl; [reflexivity | lia].
    + rewrite !deinit_calls_say_log. reflexivity.
  - destruct (Z.leb_spec c 1) as [|H1]; [discriminate|].
    injection Hstep as <-.
    eexists. split; [apply (release_keep _ _ _ _ Hl); simpl; lia|].
    split; [|repeat split].
    + apply live_say, live_upd with (1 := Hl); simpl; [reflexivity | lia].
    + rewrite deinit_calls_say_log. reflexivity.
  - injection Hstep as <-. exists w.
    split; [|split; [exact Hl | repeat split]].
    + rewrite bind_run. unfold trill_isUniquelyReferenced.
      rewrite (bind_returns _ _ _ _ _ (isUniquelyReferenced_ok _ _ _ _ Hl)).
      reflexivity.
    + symmetry. apply insert_id. exact Hb.
  - injection Hstep as <-.
    eexists. split.
    + rewrite bind_run, (retainCount_ok _ _ _ _ Hl). reflexivity.
    + split; [apply live_say; exact Hl | repeat split].
      * world_simpl. symmetry. apply insert_id. exact Hb.
      * apply deinit_calls_say_log.
Qed.

(** X7. Any sequence of retains, releases and observations on a live object
    that keeps a bounded counter strictly positive (no retain at
    [UINT32_MAX], no release at 1 or below) returns, leaves the object live
    with the counter's final value, calls no deinitializer, and changes
    nothing in the heap but that one header. *)
Theorem counter_simulation p b d ops : forall c c' w,
  live p b (RefCountBox.mk c d false) w ->
  counter_run c ops = Some c' ->
  exists w',
    perform_all (map (obj_call p) ops) w = Returns tt w' /\
    live p b (RefCountBox.mk c' d false) w' /\
    boxes w' = <[b := RefCountBox.mk c' d false]> (boxes w) /\
    mem w' = mem w /\ regions w' = regions w /\ brk w' = brk w /\
    deinit_calls w' = deinit_calls w.
Proof.
  induction ops as [|o rest IH]; intros c c' w Hl Hrun; simpl in Hrun |- *.
  - injection Hrun as <-. exists w.
    split; [reflexivity|]. split; [exact Hl|]. repeat split.
    symmetry. apply insert_id. apply Hl.
  - destruct (counter_step c o) as [c1|] eqn:Hstep; [|discriminate].
    destruct (counter_step_sound _ _ _ _ _ _ _ Hl Hstep)
      as (w1 & Hrun1 & Hl1 & Hb1 & Hm1 & Hr1 & Hk1 & Hd1).
    destruct (IH _ _ _ Hl1 Hrun) as (w2 & Hrun2 & Hl2 & Hb2 & Hm2 & Hr2 & Hk2 & Hd2).
    exists w2. rewrite (bind_returns _ _ _ _ _ Hrun1).
    split; [exact Hrun2|]. split; [exact Hl2|].
    repeat split; try congruence.
    rewrite Hb2, Hb1. apply insert_insert_eq.
Qed.

Lemma counter_simulation_witness :
  live 4104 4112 (RefCountBox.mk 1 77 false) (example_world 1 77) /\
  counter_run 1 [DoRetain; DoRetain; DoRelease; DoIsUniquelyReferenced; DoRetain; DoRelease]
    = Some 2 /\
  exists w',
    perform_all (map (obj_call 4104)
                   [DoRetain; DoRetain; DoRelease; DoIsUniquelyReferenced; DoRetain; DoRelease])
                (example_world 1 77) = Returns tt w' /\
    boxes w' = <[4112 := RefCountBox.mk 2 77 false]> (boxes (example_world 1 77)).
Proof.
  assert (Hl : live 4104 4112 (RefCountBox.mk 1 77 false) (example_world 1 77)).
  { apply example_live. split; discriminate. }
  split; [exact Hl|]. split; [reflexivity|].
  destruct (counter_simulation 4104 4112 77
              [DoRetain; DoRetain; DoRelease; DoIsUniquelyReferenced; DoRetain; DoRelease]
              1 2 _ Hl eq_refl) as (w' & Hrun & _ & Hb & _).
  exists w'. split; [exact Hrun | exact Hb].
Defined.

(** On a torn-down object the first operation of any sequence ends the
    process in the world it found. *)
Lemma dead_calls p ops w :
  dead p w -> final (perform_all (map (obj_call p) ops) w) = Some w.
Proof.
  intros Hdead. destruct ops as [|o rest]; [reflexivity|]. simpl.
  pose proof (check_dead _ _ Hdead) as Hcheck.
  assert (Hf : exists msg, perform (obj_call p o) w = Fatal msg w).
  { eexists. destruct o; simpl.
    - unfold trill_retain, RefCounted.retain. apply bind_fatal, Hcheck.
    - unfold trill_release, RefCounted.release. apply bind_fatal, Hcheck.
    - unfold trill_isUniquelyReferenced, RefCounted.isUniquelyReferenced.
      apply bind_fatal, bind_fatal, bind_fatal, Hcheck.
    - unfold RefCounted.retainCount. apply bind_fatal, bind_fatal, Hcheck. }
  destruct Hf as (msg & Hf). rewrite (bind_fatal _ _ _ _ _ Hf). reflexivity.
Qed.

(** X8. Whatever sequence of retains, releases and observations is performed
    on a live object, the run has a defined meaning: it returns or ends in
    one of the fatal errors, never in undefined behaviour. And by the time it
    ends, the object's deinitializer has been called at most once, with the
    payload address (and not at all when it is null). *)
Theorem object_calls_defined p b d ops : forall c w,
  live p b (RefCountBox.mk c d false) w ->
  exists w',
    final (perform_all (map (obj_call p) ops) w) = Some w' /\
    (deinit_calls w' = deinit_calls w \/
     (d <> 0 /\ deinit_calls w' = deinit_calls w ++ [(d, p)])).
Proof.
  induction ops as [|o rest IH]; intros c w Hl.
  - exists w. split; [reflexivity | left; reflexivity].
  - assert (Hc : 0 <= c <= UINT32_MAX) by apply Hl.
    destruct (counter_step c o) as [c1|] eqn:Hstep.
    + destruct (counter_step_sound _ _ _ _ _ _ _ Hl Hstep)
        as (w1 & Hrun1 & Hl1 & _ & _ & _ & _ & Hd1).
      destruct (IH _ _ Hl1) as (w2 & Hf2 & Hd2).
      exists w2. simpl. rewrite (bind_returns _ _ _ _ _ Hrun1).
      split; [exact Hf2|]. rewrite <- Hd1. exact Hd2.
    + destruct o; simpl in Hstep; try discriminate.
      * destruct (Z.eqb_spec c UINT32_MAX) as [Hmax|]; [|discriminate].
        eexists. simpl.
        rewrite (bind_fatal _ _ _ _ _ (retain_overflow _ _ _ _ Hl Hmax)).
        split; [reflexivity|]. left.
        rewrite deinit_calls_say_log. reflexivity.
      * destruct (Z.leb_spec c 1) as [H1|]; [|discriminate].
        destruct (Z.eq_dec c 0) as [E0|E0].
        { eexists. simpl.
          rewrite (bind_fatal _ _ _ _ _ (release_underflow _ _ _ _ Hl E0)).
          split; [reflexivity | left; reflexivity]. }
        assert (E1 : c = 1) by lia.
        pose proof (release_last _ _ _ _ Hl E1) as Hrun. simpl in Hrun.
        eexists. simpl. rewrite (bind_returns _ _ _ _ _ Hrun).
        split.
        { apply dead_calls, dead_torn_down. apply live_deinit_called with (bx := RefCountBox.mk c d false).
          apply live_say, live_say. exact Hl. }
        rewrite deinit_calls_torn_down. unfold deinit_called.
        destruct (Z.eqb_spec d 0) as [Ed|Ed].
        -- left. rewrite !deinit_calls_say_log. reflexivity.
        -- right. split; [exact Ed|].
           rewrite deinit_calls_say_deinit, !deinit_calls_say_log. reflexivity.
Qed.

Lemma object_calls_defined_witness :
  live 4104 4112 (RefCountBox.mk 1 77 false) (example_world 1 77) /\
  exists w',
    final (perform_all (map (obj_call 4104) [DoRelease; DoRelease; DoRetain])
             (example_world 1 77)) = Some w' /\
    (deinit_calls w' = deinit_calls (example_world 1 77) \/
     (77 <> 0 /\ deinit_calls w' = deinit_calls (example_world 1 77) ++ [(77, 4104)])).
Proof.
  assert (Hl : live 4104 4112 (RefCountBox.mk 1 77 false) (example_world 1 77)).
  { apply example_live. split; discriminate. }
  split; [exact Hl|].
  exact (object_calls_defined 4104 4112 77 [DoRelease; DoRelease; DoRetain] 1 _ Hl).
Defined.

(** ** Which calls return *)

Lemma bind_stuck {A B : Type} (m : Run A) (k : A -> Run B) w f :
  m w = Stuck f -> (m ≫= k) w = Stuck f.
Proof. intros H. rewrite bind_run, H. reflexivity. Qed.

Lemma deref_missing b w : boxes w !! b = None -> deref b w = Stuck BadBox.
Proof. unfold deref. intros ->. reflexivity. Qed.

Lemma mutex_lock_missing b w : boxes w !! b = None -> mutex_lock b w = Stuck BadBox.
Proof. intros H. unfold mutex_lock. apply bind_stuck, deref_missing, H. Qed.

Lemma log_missing this x b w :
  slot_is this b w -> boxes w !! b = None ->
  RefCounted.DEBUG_ARC_LOG this x w = Stuck BadBox.
Proof.
  intros Hs H. unfold RefCounted.DEBUG_ARC_LOG. by_step box_ok.
  apply bind_stuck, deref_missing, H.
Qed.

Lemma check_stuck this w f :
  RefCounted.box this w = Stuck f -> RefCounted.checkForUseAfterDealloc this w = Stuck f.
Proof. intros H. unfold RefCounted.checkForUseAfterDealloc. apply bind_stuck, H. Qed.

(** Where no lock is held, a payload address names a live object, or its slot
    cannot be read, or its slot is null, or its slot dangles. *)
Lemma classify p w :
  heap_inv w ->
  (exists b bx, live p b bx w) \/
  (exists f, RefCounted.box (RefCounted.from p) w = Stuck f) \/
  dead p w \/
  (exists b, slot_is (RefCounted.from p) b w /\ b <> 0 /\ boxes w !! b = None).
Proof.
  intros Hinv. unfold RefCounted.box, load, dead, live, slot_is, box_is.
  destruct (in_bounds _ (regions w)) eqn:Hin; [|right; left; eauto].
  destruct (mem w !! _) as [b|] eqn:Hm; [|right; left; eauto].
  destruct (Z.eq_dec b 0) as [->|Hn]; [right; right; left; auto|].
  destruct (boxes w !! b) as [bx|] eqn:Hb.
  - left. exists b, bx. destruct (Hinv _ _ Hb). auto.
  - right. right. right. exists b. auto.
Qed.

Lemma retain_returns_live p w a w' :
  heap_inv w -> trill_retain p w = Returns a w' -> exists b bx, live p b bx w.
Proof.
  intros Hinv Hrun.
  destruct (classify p w Hinv) as [Hl | [(f & Hs) | [Hd | (b & Hs & Hn & Hb)]]];
    [exact Hl | exfalso ..]; revert Hrun; unfold trill_retain, RefCounted.retain.
  - rewrite (bind_stuck _ _ _ _ (check_stuck _ _ _ Hs)). discriminate.
  - rewrite (bind_fatal _ _ _ _ _ (check_dead _ _ Hd)). discriminate.
  - by_step check_live. rewrite (bind_stuck _ _ _ _ (log_missing _ _ _ _ Hs Hb)).
    discriminate.
Qed.

Lemma release_returns_live p w a w' :
  heap_inv w -> trill_release p w = Returns a w' -> exists b bx, live p b bx w.
Proof.
  intros Hinv Hrun.
  destruct (classify p w Hinv) as [Hl | [(f & Hs) | [Hd | (b & Hs & Hn & Hb)]]];
    [exact Hl | exfalso ..]; revert Hrun; unfold trill_release, RefCounted.release.
  - rewrite (bind_stuck _ _ _ _ (check_stuck _ _ _ Hs)). discriminate.
  - rewrite (bind_fatal _ _ _ _ _ (check_dead _ _ Hd)). discriminate.
  - by_step check_live. by_step box_ok.
    rewrite (bind_stuck _ _ _ _ (mutex_lock_missing _ _ Hb)). discriminate.
Qed.

Lemma isUniquelyReferenced_returns_live p w a w' :
  heap_inv w ->
  RefCounted.isUniquelyReferenced (RefCounted.from p) w = Returns a w' ->
  exists b bx, live p b bx w.
Proof.
  intros Hinv Hrun.
  destruct (classify p w Hinv) as [Hl | [(f & Hs) | [Hd | (b & Hs & Hn & Hb)]]];
    [exact Hl | exfalso ..]; revert Hrun; unfold RefCounted.isUniquelyReferenced.
  - rewrite (bind_stuck _ _ _ _ (check_stuck _ _ _ Hs)). discriminate.
  - rewrite (bind_fatal _ _ _ _ _ (check_dead _ _ Hd)). discriminate.
  - by_step check_live. by_step box_ok.
    rewrite (bind_stuck _ _ _ _ (mutex_lock_missing _ _ Hb)). discriminate.
Qed.

Lemma retainCount_returns_live p w a w' :
  heap_inv w ->
  RefCounted.retainCount (RefCounted.from p) w = Returns a w' ->
  exists b bx, live p b bx w.
Proof.
  intros Hinv Hrun.
  destruct (classify p w Hinv) as [Hl | [(f & Hs) | [Hd | (b & Hs & Hn & Hb)]]];
    [exact Hl | exfalso ..]; revert Hrun; unfold RefCounted.retainCount.
  - rewrite (bind_stuck _ _ _ _ (check_stuck _ _ _ Hs)). discriminate.
  - rewrite (bind_fatal _ _ _ _ _ (check_dead _ _ Hd)). discriminate.
  - by_step check_live. by_step box_ok.
    rewrite (bind_stuck _ _ _ _ (mutex_lock_missing _ _ Hb)). discriminate.
Qed.







(** ** The invariant of the free store *)

Lemma heap_inv_upd b bx w :
  heap_inv w ->
  RefCountBox.mutex bx = false ->
  0 <= RefCountBox.retainCount bx <= UINT32_MAX ->
  heap_inv (upd b bx w).
Proof.
  intros Hinv Hm Hc b' bx'. unfold upd. world_simpl.
  rewrite lookup_insert. case_decide.
  - intros Hx. injection Hx as <-. auto.
  - apply Hinv.
Qed.

Lemma heap_inv_say e w : heap_inv w -> heap_inv (say e w).
Proof. intros H. exact H. Qed.

Lemma heap_inv_deinit_called fn v w : heap_inv w -> heap_inv (deinit_called fn v w).
Proof. intros H. unfold deinit_called. destruct (fn =? 0); exact H. Qed.

Lemma heap_inv_torn_down this b w : heap_inv w -> heap_inv (torn_down this b w).
Proof.
  intros Hinv b' bx'. unfold torn_down. world_simpl.
  intros H. apply lookup_delete_Some in H as [_ H]. exact (Hinv _ _ H).
Qed.

Lemma heap_inv_created size d w : heap_inv w -> heap_inv (created size d w).
Proof.
  intros Hinv b' bx'. unfold created. world_simpl.
  rewrite lookup_insert. case_decide.
  - intros Hx. injection Hx as <-. simpl. unfold UINT32_MAX. split; [reflexivity | lia].
  - apply Hinv.
Qed.

Lemma perform_keeps_heap_inv c w a w' :
  heap_inv w -> perform c w = Returns a w' -> heap_inv w'.
Proof.
  intros Hinv Hrun. destruct c; simpl in Hrun.
  - rewrite bind_run in Hrun.
    destruct (trill_allocateIndirectType size deinit w) as [p w1| |] eqn:E; try discriminate.
    injection Hrun as _ <-.
    apply allocate_inv in E as (this & Hc & _).
    apply created_inv in Hc as (_ & -> & _). apply heap_inv_created, Hinv.
  - destruct (retain_returns_live _ _ _ _ Hinv Hrun) as (b & bx & Hl).
    assert (Hc : 0 <= RefCountBox.retainCount bx <= UINT32_MAX) by apply Hl.
    destruct (Z.eq_dec (RefCountBox.retainCount bx) UINT32_MAX) as [E|E].
    + rewrite (retain_overflow _ _ _ _ Hl E) in Hrun. discriminate.
    + rewrite (retain_ok _ _ _ _ Hl E) in Hrun. injection Hrun as _ <-.
      apply heap_inv_say, heap_inv_say, heap_inv_upd; [exact Hinv | apply Hl | simpl; lia].
  - destruct (release_returns_live _ _ _ _ Hinv Hrun) as (b & bx & Hl).
    assert (Hc : 0 <= RefCountBox.retainCount bx <= UINT32_MAX) by apply Hl.
    destruct (Z.eq_dec (RefCountBox.retainCount bx) 0) as [E0|E0].
    { rewrite (release_underflow _ _ _ _ Hl E0) in Hrun. discriminate. }
    destruct (Z.eq_dec (RefCountBox.retainCount bx) 1) as [E1|E1].
    + rewrite (release_last _ _ _ _ Hl E1) in Hrun. injection Hrun as _ <-.
      apply heap_inv_torn_down, heap_inv_deinit_called, heap_inv_say, heap_inv_say, Hinv.
    + rewrite (release_keep _ _ _ _ Hl E0 E1) in Hrun. injection Hrun as _ <-.
      apply heap_inv_say, heap_inv_upd; [exact Hinv | apply Hl | simpl; lia].
  - rewrite bind_run in Hrun. unfold trill_isUniquelyReferenced in Hrun.
    rewrite bind_run in Hrun.
    destruct (RefCounted.isUniquelyReferenced (RefCounted.from instance) w)
      as [r w1| |] eqn:E; try discriminate.
    injection Hrun as _ <-.
    destruct (isUniquelyReferenced_returns_live _ _ _ _ Hinv E) as (b & bx & Hl).
    rewrite (isUniquelyReferenced_ok _ _ _ _ Hl) in E. injection E as _ <-. exact Hinv.
  - rewrite bind_run in Hrun.
    destruct (RefCounted.retainCount (RefCounted.from instance) w)
      as [r w1| |] eqn:E; try discriminate.
    injection Hrun as _ <-.
    destruct (retainCount_returns_live _ _ _ _ Hinv E) as (b & bx & Hl).
    rewrite (retainCount_ok _ _ _ _ Hl) in E. injection E as _ <-.
    apply heap_inv_say, Hinv.
Qed.

(** X10. Every sequence of calls that returns leaves the free store as
    orderly as it found it: started where no lock is held and every count is
    within [0, UINT32_MAX], it ends where no lock is held and every count is
    within [0, UINT32_MAX]. *)
Theorem calls_keep_heap_inv cs : forall w w',
  heap_inv w -> perform_all cs w = Returns tt w' -> heap_inv w'.
Proof.
  induction cs as [|c rest IH]; intros w w' Hinv Hrun; simpl in Hrun.
  - injection Hrun as <-. exact Hinv.
  - rewrite bind_run in Hrun.
    destruct (perform c w) as [a w1| |] eqn:E; try discriminate.
    exact (IH _ _ (perform_keeps_heap_inv _ _ _ _ Hinv E) Hrun).
Qed.

Lemma world0_heap_inv : heap_inv world0.
Proof. intros b bx H. unfold world0 in H. simpl in H. rewrite lookup_empty in H. discriminate. Qed.

Lemma calls_keep_heap_inv_witness :
  heap_inv world0 /\
  exists w',
    perform_all [Allocate 8 77; Retain 4104; Retain 4104; Release 4104] world0
      = Returns tt w' /\
    heap_inv w'.
Proof.
  split; [exact world0_heap_inv|].
  eexists. split; [vm_compute; reflexivity|].
  apply (calls_keep_heap_inv [Allocate 8 77; Retain 4104; Retain 4104; Release 4104] world0);
    [exact world0_heap_inv | reflexivity].
Defined.

(** ** Relations every run respects *)

Section Keeps.
Context {R : World -> World -> Prop}.
Hypothesis R_refl : forall w, R w w.
Hypothesis R_trans : forall w1 w2 w3, R w1 w2 -> R w2 w3 -> R w1 w3.

Lemma keeps_bind {A B : Type} (m : Run A) (k : A -> Run B) :
  keeps R m -> (forall a, keeps R (k a)) -> keeps R (m ≫= k).
Proof.
  intros Hm Hk w. rewrite bind_run. specialize (Hm w).
  destruct (m w) as [a w1|msg w1|f]; [|exact Hm|exact I].
  specialize (Hk a w1). destruct (k a w1); eauto.
Qed.

Lemma keeps_ret {A : Type} (a : A) : keeps R (mret a).
Proof. intros w. apply R_refl. Qed.

Lemma keeps_stuck {A : Type} (f : Fault) : keeps R (@stuck A f).
Proof. intros w. exact I. Qed.

Lemma keeps_fatal {A : Type} msg : keeps R (@trill_fatalError A msg).
Proof. intros w. apply R_refl. Qed.

Lemma keeps_load a : keeps R (load a).
Proof.
  intros w. unfold load.
  destruct (in_bounds a (regions w)); [destruct (mem w !! a)|]; auto.
Qed.

Lemma keeps_deref b : keeps R (deref b).
Proof. intros w. unfold deref. destruct (boxes w !! b); auto. Qed.

Lemma keeps_box this : keeps R (RefCounted.box this).
Proof. apply keeps_load. Qed.

Lemma keeps_check this : keeps R (RefCounted.checkForUseAfterDealloc this).
Proof.
  unfold RefCounted.checkForUseAfterDealloc.
  apply keeps_bind; [apply keeps_box|]. intros b.
  destruct (b =? 0); [apply keeps_fatal | apply keeps_ret].
Qed.

Lemma keeps_emit e : (forall w, R w (say e w)) -> keeps R (emit e).
Proof. intros H w. apply H. Qed.

Lemma keeps_log this x :
  (forall w v c, R w (say (EvLog x v c) w)) ->
  keeps R (RefCounted.DEBUG_ARC_LOG this x).
Proof.
  intros H. unfold RefCounted.DEBUG_ARC_LOG.
  apply keeps_bind; [apply keeps_box|]. intros b.
  apply keeps_bind; [apply keeps_deref|]. intros bx.
  apply keeps_emit. intros w. apply H.
Qed.
End Keeps.

(** *** Nothing goes back to the allocator, nothing is unsaid *)

Lemma grows_refl w : grows w w.
Proof.
  repeat split; [exists []; reflexivity | lia | exists []; symmetry; apply app_nil_r].
Qed.

Lemma grows_trans w1 w2 w3 : grows w1 w2 -> grows w2 w3 -> grows w1 w3.
Proof.
  intros ((r1 & Hr1) & Hb1 & (e1 & He1)) ((r2 & Hr2) & Hb2 & (e2 & He2)).
  repeat split.
  - exists (r2 ++ r1). rewrite Hr2, Hr1. apply app_assoc.
  - lia.
  - exists (e1 ++ e2). rewrite He2, He1. symmetry. apply app_assoc.
Qed.

Lemma grows_say e w : grows w (say e w).
Proof. repeat split; [exists []; reflexivity | simpl; lia | exists [e]; reflexivity]. Qed.

Lemma grows_set_boxes m w : grows w (set_boxes m w).
Proof. exact (grows_refl w). Qed.

Lemma grows_set_mem m w : grows w (set_mem m w).
Proof. exact (grows_refl w). Qed.

Lemma keeps_grows_assign b bx : keeps grows (assign b bx).
Proof. intros w. unfold assign. destruct (boxes w !! b); [apply grows_set_boxes | exact I]. Qed.

Lemma keeps_grows_store a v : keeps grows (store a v).
Proof. intros w. unfold store. destruct (in_bounds a (regions w)); [apply grows_set_mem | exact I]. Qed.

Lemma keeps_grows_delete_box b : keeps grows (delete_box b).
Proof.
  intros w. unfold delete_box.
  destruct (b =? 0); [apply grows_refl|].
  destruct (boxes w !! b); [apply grows_set_boxes | exact I].
Qed.

Lemma keeps_grows_trill_alloc n : 0 <= n -> keeps grows (trill_alloc n).
Proof.
  intros Hn w. unfold trill_alloc. destruct (_ <=? _); [|exact I].
  repeat split; [exists [(brk w, n)]; reflexivity | simpl; lia | exists []; symmetry; apply app_nil_r].
Qed.

Lemma keeps_grows_new c d : keeps grows (new_RefCountBox c d).
Proof.
  intros w. unfold new_RefCountBox. destruct (_ <=? _); [|exact I].
  repeat split; [exists []; reflexivity | simpl; unfold sizeof_RefCountBox; lia
                | exists []; symmetry; apply app_nil_r].
Qed.

Create HintDb grows.
#[local] Hint Resolve grows_refl grows_trans grows_say : grows.
#[local] Hint Resolve keeps_ret keeps_stuck keeps_fatal keeps_load keeps_deref keeps_box
  keeps_check keeps_grows_assign keeps_grows_store keeps_grows_delete_box
  keeps_grows_new : grows.

(** Split a sequence into its statements; each of them only adds. *)
Ltac grows_steps :=
  repeat first
    [ solve [eauto with grows]
    | apply keeps_emit; intros; apply grows_say
    | apply keeps_log; [exact grows_refl | exact grows_trans | intros; apply grows_say]
    | match goal with
      | |- keeps grows (if ?c then _ else _) => destruct c
      end
    | apply (keeps_bind grows_trans); [|intros ?] ].

Lemma keeps_grows_mutex_lock b : keeps grows (mutex_lock b).
Proof. unfold mutex_lock. grows_steps. Qed.

Lemma keeps_grows_mutex_unlock b : keeps grows (mutex_unlock b).
Proof. unfold mutex_unlock. grows_steps. Qed.

#[local] Hint Resolve keeps_grows_mutex_lock keeps_grows_mutex_unlock : grows.

Lemma keeps_grows_create size d : keeps grows (RefCounted.create size d).
Proof.
  unfold RefCounted.create.
  apply (keeps_bind grows_trans);
    [apply keeps_grows_trill_alloc, wrap_ptr_nonneg | intros ?].
  grows_steps.
Qed.

Lemma keeps_grows_isUniquelyReferenced this : keeps grows (RefCounted.isUniquelyReferenced this).
Proof. unfold RefCounted.isUniquelyReferenced. grows_steps. Qed.

Lemma keeps_grows_retainCount this : keeps grows (RefCounted.retainCount this).
Proof. unfold RefCounted.retainCount. grows_steps. Qed.

Lemma keeps_grows_retain this : keeps grows (RefCounted.retain this).
Proof. unfold RefCounted.retain. grows_steps. Qed.

Lemma keeps_grows_dealloc this : keeps grows (RefCounted.dealloc this).
Proof. unfold RefCounted.dealloc. grows_steps. Qed.

Lemma keeps_grows_release this : keeps grows (RefCounted.release this).
Proof.
  pose proof (keeps_grows_dealloc this).
  unfold RefCounted.release. grows_steps.
Qed.

Lemma keeps_grows_perform c : keeps grows (perform c).
Proof.
  destruct c; simpl.
  - apply (keeps_bind grows_trans); [|intros; apply keeps_ret, grows_refl].
    apply (keeps_bind grows_trans);
      [apply keeps_grows_create | intros; apply keeps_ret, grows_refl].
  - apply keeps_grows_retain.
  - apply keeps_grows_release.
  - apply (keeps_bind grows_trans); [|intros; apply keeps_ret, grows_refl].
    apply (keeps_bind grows_trans);
      [apply keeps_grows_isUniquelyReferenced | intros; apply keeps_ret, grows_refl].
  - apply (keeps_bind grows_trans);
      [apply keeps_grows_retainCount | intros; apply keeps_ret, grows_refl].
Qed.

(** X11. No sequence of calls, started anywhere and however it ends
    (returning or in a fatal error), gives storage back: the regions handed
    out by [trill_alloc] at the start are all still handed out at the end,
    the break has not moved down, and everything emitted by the start is
    still the beginning of what has been emitted by the end. *)
Theorem calls_only_grow (cs : list Call) : keeps grows (perform_all cs).
Proof.
  induction cs as [|c rest IH]; simpl.
  - apply keeps_ret, grows_refl.
  - apply (keeps_bind grows_trans); [apply keeps_grows_perform | intros _; exact IH].
Qed.

(** *** What retain and the observers leave alone *)

Lemma untouched_refl w : untouched w w.
Proof. unfold untouched. auto. Qed.

Lemma untouched_trans w1 w2 w3 : untouched w1 w2 -> untouched w2 w3 -> untouched w1 w3.
Proof.
  intros (Hm1 & Hr1 & Hb1 & Hd1 & Hc1) (Hm2 & Hr2 & Hb2 & Hd2 & Hc2).
  unfold untouched. split; [congruence|]. split; [congruence|]. split; [congruence|].
  split; [|congruence]. intros b. rewrite Hd2. apply Hd1.
Qed.

Lemma untouched_say_log x v c w : untouched w (say (EvLog x v c) w).
Proof.
  unfold untouched. split; [reflexivity|]. split; [reflexivity|]. split; [reflexivity|].
  split; [reflexivity|]. apply deinit_calls_say_log.
Qed.

Lemma untouched_upd b bx bx' w :
  boxes w !! b = Some bx ->
  RefCountBox.deinit bx' = RefCountBox.deinit bx ->
  untouched w (upd b bx' w).
Proof.
  intros Hb Hd. unfold untouched.
  split; [reflexivity|]. split; [reflexivity|]. split; [reflexivity|].
  split; [|reflexivity]. intros b0. world_simpl.
  rewrite lookup_insert. case_decide.
  - subst b0. rewrite Hb. simpl. f_equal. exact Hd.
  - reflexivity.
Qed.

(** The read-modify-write of a header: [bx = *b; *b = f(bx); ...]. *)
Lemma keeps_untouched_rmw {A : Type} b (f : RefCountBox.t -> RefCountBox.t) (k : Run A) :
  (forall bx, RefCountBox.deinit (f bx) = RefCountBox.deinit bx) ->
  keeps untouched k ->
  keeps untouched (bx ← deref b; assign b (f bx);; k).
Proof.
  intros Hf Hk w. rewrite bind_run. unfold deref at 1.
  destruct (boxes w !! b) as [bx|] eqn:Hb; [|exact I].
  rewrite bind_run. unfold assign. rewrite Hb.
  specialize (Hk (set_boxes (<[b:=f bx]> (boxes w)) w)).
  pose proof (untouched_upd b bx (f bx) w Hb (Hf bx)) as Hu.
  destruct (k _); [| |exact I]; exact (untouched_trans _ _ _ Hu Hk).
Qed.

Lemma keeps_untouched_mutex_lock b : keeps untouched (mutex_lock b).
Proof.
  intros w. unfold mutex_lock. rewrite bind_run. unfold deref.
  destruct (boxes w !! b) as [bx|] eqn:Hb; [|exact I].
  destruct (RefCountBox.mutex bx); [exact I|].
  unfold assign. rewrite Hb. apply (untouched_upd b bx); [exact Hb | reflexivity].
Qed.

Lemma keeps_untouched_mutex_unlock b : keeps untouched (mutex_unlock b).
Proof.
  intros w. unfold mutex_unlock. rewrite bind_run. unfold deref.
  destruct (boxes w !! b) as [bx|] eqn:Hb; [|exact I].
  destruct (RefCountBox.mutex bx); [|exact I].
  unfold assign. rewrite Hb. apply (untouched_upd b bx); [exact Hb | reflexivity].
Qed.

Create HintDb untouched.
#[local] Hint Resolve untouched_refl untouched_trans untouched_say_log : untouched.
#[local] Hint Resolve keeps_ret keeps_stuck keeps_fatal keeps_load keeps_deref keeps_box
  keeps_check keeps_untouched_mutex_lock keeps_untouched_mutex_unlock : untouched.

Ltac untouched_steps :=
  repeat first
    [ solve [eauto with untouched]
    | apply keeps_log;
        [exact untouched_refl | exact untouched_trans | intros; apply untouched_say_log]
    | match goal with
      | |- keeps untouched (if ?c then _ else _) => destruct c
      end
    | apply keeps_untouched_rmw; [intros ?; reflexivity|]
    | apply (keeps_bind untouched_trans); [|intros ?] ].

Lemma keeps_untouched_isUniquelyReferenced this :
  keeps untouched (RefCounted.isUniquelyReferenced this).
Proof. unfold RefCounted.isUniquelyReferenced. untouched_steps. Qed.

Lemma keeps_untouched_retainCount this : keeps untouched (RefCounted.retainCount this).
Proof. unfold RefCounted.retainCount. untouched_steps. Qed.

Lemma keeps_untouched_retain this : keeps untouched (RefCounted.retain this).
Proof. unfold RefCounted.retain. untouched_steps. Qed.

(** X12. From any world and however they end, [trill_retain],
    [trill_isUniquelyReferenced] and [retainCount] write no memory word, hand
    out and free no storage, add and remove no header, change no header's
    deinitializer and call none: all they can change is a count, a mutex and
    the diagnostic output. *)
Theorem retain_and_observers_untouched (p : Z) :
  keeps untouched (trill_retain p) /\
  keeps untouched (trill_isUniquelyReferenced p) /\
  keeps untouched (RefCounted.retainCount (RefCounted.from p)).
Proof.
  split; [apply keeps_untouched_retain|]. split; [|apply keeps_untouched_retainCount].
  unfold trill_isUniquelyReferenced.
  apply (keeps_bind untouched_trans);
    [apply keeps_untouched_isUniquelyReferenced | intros; apply keeps_ret, untouched_refl].
Qed.

(** ** Allocation at the edges *)

Lemma in_bounds_cons a r rs : in_bounds a (r :: rs) = in_region a r || in_bounds a rs.
Proof. reflexivity. Qed.

Lemma in_bounds_below a rs :
  Forall (fun r => fst r + snd r <= a) rs -> in_bounds a rs = false.
Proof.
  induction 1 as [|r rs Hr _ IH]; [reflexivity|].
  rewrite in_bounds_cons, IH, orb_false_r. unfold in_region, sizeof_ptr.
  destruct (Z.leb_spec (a + 8) (fst r + snd r)); [lia | apply andb_false_r].
Qed.

(** X13. A size within [sizeof_ptr] of the largest [size_t] makes
    [sizeof(RefCountBox * ) + size] wrap around: fewer than [sizeof_ptr] bytes
    are requested from [trill_alloc], and the constructor's store of the
    header's address, [sizeof_ptr] bytes at the start of the block, lies
    neither inside that block nor inside any block handed out before. The
    constructor makes this store without comparing anything; the standard
    gives such a run no meaning, which the model reports as [OutOfBounds]
    (compiled code may well carry on and return). Stated for heaps in which
    what was handed out lies below the break. *)
Theorem allocate_size_wraps size d w :
  regions_below w ->
  ptr_modulus - sizeof_ptr <= size < ptr_modulus ->
  wrap_ptr (sizeof_ptr + size) = sizeof_ptr + size - ptr_modulus /\
  wrap_ptr (sizeof_ptr + size) < sizeof_ptr /\
  in_bounds (brk w) ((brk w, wrap_ptr (sizeof_ptr + size)) :: regions w) = false /\
  (brk w + wrap_ptr (sizeof_ptr + size) + sizeof_RefCountBox <= ptr_modulus ->
   trill_allocateIndirectType size d w = Stuck OutOfBounds).
Proof.
  intros Hbelow Hsize.
  assert (Hn : wrap_ptr (sizeof_ptr + size) = sizeof_ptr + size - ptr_modulus).
  { unfold wrap_ptr. symmetry. apply Z.mod_unique with (q := 1);
      unfold sizeof_ptr, ptr_modulus in *; lia. }
  assert (Hsmall : wrap_ptr (sizeof_ptr + size) < sizeof_ptr) by (rewrite Hn; lia).
  assert (Hpos : 0 <= wrap_ptr (sizeof_ptr + size)) by apply wrap_ptr_nonneg.
  assert (Hout : in_bounds (brk w) ((brk w, wrap_ptr (sizeof_ptr + size)) :: regions w) = false).
  { rewrite in_bounds_cons, (in_bounds_below _ _ Hbelow), orb_false_r.
    unfold in_region. simpl.
    destruct (Z.leb_spec (brk w + sizeof_ptr) (brk w + wrap_ptr (sizeof_ptr + size)));
      [lia | apply andb_false_r]. }
  split; [exact Hn|]. split; [exact Hsmall|]. split; [exact Hout|].
  intros Hfit.
  unfold trill_allocateIndirectType. apply bind_stuck.
  unfold RefCounted.create. rewrite bind_run. unfold trill_alloc.
  destruct (Z.leb_spec (brk w + wrap_ptr (sizeof_ptr + size)) ptr_modulus);
    [|unfold sizeof_RefCountBox in Hfit; lia].
  rewrite bind_run. unfold new_RefCountBox. world_simpl.
  destruct (Z.leb_spec (brk w + wrap_ptr (sizeof_ptr + size) + sizeof_RefCountBox)
              ptr_modulus); [|lia].
  rewrite bind_run. unfold store. world_simpl. rewrite Hout. reflexivity.
Qed.

Lemma allocate_size_wraps_witness :
  regions_below world0 /\
  wrap_ptr (sizeof_ptr + (ptr_modulus - 1)) = 7 /\
  trill_allocateIndirectType (ptr_modulus - 1) 77 world0 = Stuck OutOfBounds.
Proof.
  assert (H : regions_below world0) by constructor.
  destruct (allocate_size_wraps (ptr_modulus - 1) 77 world0 H) as (Hn & _ & _ & Hrun).
  { split; discriminate || reflexivity. }
  split; [exact H|]. split; [rewrite Hn; reflexivity|].
  apply Hrun. discriminate.
Defined.

(** X14. An allocation that returns leaves every object that lies below the
    break (slot and header) as it was, live with the same header, and the
    payload address it returns is not the address of such an object. *)
Theorem allocate_keeps_objects size d w p w' p2 b2 bx2 :
  sane w ->
  live p2 b2 bx2 w ->
  b2 < brk w ->
  RefCounted.boxPtr (RefCounted.from p2) < brk w ->
  trill_allocateIndirectType size d w = Returns p w' ->
  live p2 b2 bx2 w' /\ p <> p2.
Proof.
  intros Hsane (Hs & Hn & Hb & Hm & Hc) Hb2 Hs2 Halloc.
  apply allocate_inv in Halloc as (this & Hcreate & ->).
  destruct (created_live _ _ _ _ _ Hsane Hcreate) as (Hrt & _).
  apply created_inv in Hcreate as (-> & -> & _ & _).
  pose proof (wrap_ptr_nonneg (sizeof_ptr + size)) as Hpos.
  split.
  - repeat split; try assumption; try apply Hc.
    + unfold created. world_simpl. rewrite in_bounds_cons. destruct Hs as [-> _].
      apply orb_true_r.
    + unfold created. world_simpl. rewrite lookup_insert_ne by lia. apply Hs.
    + unfold box_is, created. world_simpl. rewrite lookup_insert_ne by lia. exact Hb.
  - simpl RefCounted.value in *. intros E. rewrite E in Hrt.
    rewrite Hrt in Hs2. simpl in Hs2. lia.
Qed.

Lemma allocate_keeps_objects_witness :
  sane (example_world 2 77) /\
  live 4104 4112 (RefCountBox.mk 2 77 false) (example_world 2 77) /\
  exists p w',
    trill_allocateIndirectType 24 0 (example_world 2 77) = Returns p w' /\
    live 4104 4112 (RefCountBox.mk 2 77 false) w' /\ p <> 4104.
Proof.
  assert (Hsane : sane (example_world 2 77)) by reflexivity.
  assert (Hl : live 4104 4112 (RefCountBox.mk 2 77 false) (example_world 2 77)).
  { apply example_live. split; discriminate. }
  split; [exact Hsane|]. split; [exact Hl|].
  eexists. eexists. split; [vm_compute; reflexivity|].
  apply (allocate_keeps_objects 24 0 (example_world 2 77) _ _ 4104 4112 _ Hsane Hl);
    reflexivity.
Defined.
